(** * ANODI for binary images: multipoint histograms and their
      Jensen-Shannon divergence

    A shallow embedding of [binary_anodi.py].  The module is a thin layer
    over numpy, scipy and scikit-learn, so each library routine it calls is
    embedded next to the function that calls it, with the behaviour the
    call relies on:

    - integer arrays are [int64] arrays: lists of [Z] whose arithmetic
      wraps modulo [2^64] (module [Int64]);
    - float arrays hold IEEE doubles.  Rounding is not modelled: a finite
      double is a real number and finite arithmetic is exact, while the
      special values ([inf], [-inf], [nan]) and the operations that create
      them (division by zero, [log] of zero, ...) follow IEEE 754 (module
      [F]).  What is stated of [jsd] and its callers is therefore kept to
      what rounding cannot change: exceptions, [nan], finiteness, exact
      zeros, symmetry and shapes.  The value of a divergence is only
      related to the real-valued formula [JS], which a double
      approximates;
    - a Python exception is a value of [exn]; a call either returns or
      raises ([result]);
    - memory is unbounded. *)

From Stdlib Require Import ZArith List Bool Lia Reals Lra.
Import ListNotations.

Set Implicit Arguments.

Local Open Scope Z_scope.

(** ** Exceptions *)

Inductive exn : Type :=
| ValueError
| OverflowError.

Inductive result (A : Type) : Type :=
| Ok (a : A)
| Raise (e : exn).

Arguments Ok {A} a.
Arguments Raise {A} e.

Definition bind {A B : Type} (r : result A) (f : A -> result B) : result B :=
  match r with
  | Ok a => f a
  | Raise e => Raise e
  end.

Notation "x <- r ;; k" := (bind r (fun x => k))
  (at level 61, r at next level, right associativity).

(** A list comprehension whose body may raise: the first exception wins. *)
Fixpoint mapM {A B : Type} (f : A -> result B) (l : list A) : result (list B) :=
  match l with
  | [] => Ok []
  | a :: l' => b <- f a ;; bs <- mapM f l' ;; Ok (b :: bs)
  end.

(** ** 64-bit integers *)

Module Int64.

Definition modulus : Z := 2 ^ 64.
Definition max_signed : Z := 2 ^ 63 - 1.
Definition min_signed : Z := - 2 ^ 63.

(** The two's complement representative of [z] in [[-2^63, 2^63)]. *)
Definition wrap (z : Z) : Z := (z + 2 ^ 63) mod modulus - 2 ^ 63.

Definition add (a b : Z) : Z := wrap (a + b).
Definition mul (a b : Z) : Z := wrap (a * b).

(** numpy's [left_shift] on [int64]: a count outside [[0, 64)] gives 0. *)
Definition shl (a s : Z) : Z :=
  if (0 <=? s) && (s <? 64) then wrap (a * 2 ^ s) else 0.

Definition in_range (z : Z) : Prop := min_signed <= z <= max_signed.

End Int64.

(** ** numpy on integer arrays *)

(** [np.arange(hi, -1, -1)] for [hi = n - 1]: the counts [n-1, ..., 1, 0]. *)
Definition arange_down (n : nat) : list Z :=
  map Z.of_nat (rev (seq 0 n)).

(** [x.dot(w)] for two 1-D [int64] arrays: a wrapping multiply-accumulate.
    (numpy rejects operands of different length; [bin2dec] always builds
    [w] with the length of [x].) *)
Definition dot (x w : list Z) : Z :=
  fold_left (fun acc xw => Int64.add acc (Int64.mul (fst xw) (snd xw)))
            (combine x w) 0.

(** [np.sum] of an [int64] array. *)
Definition np_sum (x : list Z) : Z := fold_left Int64.add x 0.

(** Number of occurrences of [v] in [x]. *)
Definition count (x : list Z) (v : Z) : Z :=
  Z.of_nat (count_occ Z.eq_dec x v).

Definition amax (x : list Z) : Z := fold_right Z.max 0 x.

(** [np.bincount(x, minlength=n)]: [n] must fit a C [intp], [x] must have
    no negative element, and the result has [max(n, max(x)+1)] entries. *)
Definition bincount (x : list Z) (minlength : Z) : result (list Z) :=
  if Int64.max_signed <? minlength then Raise OverflowError
  else if existsb (fun v => v <? 0) x then Raise ValueError
  else
    let n := match x with
             | [] => minlength
             | _ => Z.max minlength (amax x + 1)
             end in
    Ok (map (fun i => count x (Z.of_nat i)) (seq 0 (Z.to_nat n))).

(** ** The pattern encoder *)

(** [bin2dec(x)] for a 1-D array [x]:
    [x.dot(1 << np.arange(x.shape[-1] - 1, -1, -1))]. *)
Definition weights (m : nat) : list Z :=
  map (Int64.shl 1) (arange_down m).

Definition bin2dec (x : list Z) : Z := dot x (weights (length x)).

(** For a 2-D array the product is taken row by row. *)
Definition bin2dec_rows (xs : list (list Z)) : list Z := map bin2dec xs.

(** ** Images and patches *)

(** A 2-D array as the list of its rows; [shape] is numpy's [.shape]. *)
Definition image : Type := list (list Z).

Definition height (img : image) : nat := length img.
Definition width (img : image) : nat := length (hd [] img).

(** An [h] x [w] array. *)
Definition rect (h w : nat) (img : image) : Prop :=
  length img = h /\ Forall (fun r => length r = w) img.

(** Every pixel is 0 or 1. *)
Definition is_bit (b : Z) : Prop := b = 0 \/ b = 1.
Definition bits (x : list Z) : Prop := Forall is_bit x.
Definition binary (img : image) : Prop := Forall bits img.

(** [img[i:i+k, j:j+k]]. *)
Definition window (img : image) (k i j : nat) : image :=
  map (fun r => firstn k (skipn j r)) (firstn k (skipn i img)).

(** Every [k] x [k] window, in row-major order of its top-left corner. *)
Definition windows (img : image) (k : nat) : list image :=
  flat_map (fun i => map (fun j => window img k i j)
                         (seq 0 (width img - k + 1)))
           (seq 0 (height img - k + 1)).

(** scikit-learn's [extract_patches_2d(img, (k, k))]: both size checks,
    then all the windows.  Windows of side 0 cannot be reshaped into a
    patch array. *)
Definition extract_patches_2d (img : image) (k : nat) : result (list image) :=
  if (height img <? k)%nat then Raise ValueError
  else if (width img <? k)%nat then Raise ValueError
  else if (k =? 0)%nat then Raise ValueError
  else Ok (windows img k).

(** ** The histogram builder *)

Definition multipoint_histogram (img : image) (patch_size : nat)
  : result (list Z) :=
  patches <- extract_patches_2d img patch_size ;;
  let patches := map (@concat Z) patches in
  let patches := bin2dec_rows patches in
  bincount patches (2 ^ (Z.of_nat patch_size ^ 2)).

(** ** IEEE doubles, without rounding *)

Module F.

Local Open Scope R_scope.

(** A double is finite, an infinity with its sign, or not-a-number.
    The sign of a zero is not modelled: every zero is [+0]. *)
Inductive float : Type :=
| Fin (r : R)
| Inf (neg : bool)
| NaN.

Definition negative (r : R) : bool := if Rlt_dec r 0 then true else false.

Definition of_int (z : Z) : float := Fin (IZR z).
Definition of_nat (n : nat) : float := Fin (INR n).

Definition half : float := Fin (/ 2).
Definition one : float := Fin 1.

Definition add (a b : float) : float :=
  match a, b with
  | NaN, _ | _, NaN => NaN
  | Fin x, Fin y => Fin (x + y)
  | Inf s, Fin _ | Fin _, Inf s => Inf s
  | Inf s, Inf t => if Bool.eqb s t then Inf s else NaN
  end.

Definition mul (a b : float) : float :=
  match a, b with
  | NaN, _ | _, NaN => NaN
  | Fin x, Fin y => Fin (x * y)
  | Inf s, Fin y | Fin y, Inf s =>
      if Req_dec_T y 0 then NaN else Inf (xorb s (negative y))
  | Inf s, Inf t => Inf (xorb s t)
  end.

(** Division does not trap: [0/0] is [nan], [x/0] an infinity. *)
Definition div (a b : float) : float :=
  match a, b with
  | NaN, _ | _, NaN => NaN
  | Fin x, Fin y =>
      if Req_dec_T y 0
      then (if Req_dec_T x 0 then NaN else Inf (negative x))
      else Fin (x / y)
  | Fin _, Inf _ => Fin 0
  | Inf s, Fin y => Inf (xorb s (negative y))
  | Inf _, Inf _ => NaN
  end.

(** Natural logarithm. *)
Definition log (a : float) : float :=
  match a with
  | NaN => NaN
  | Fin x =>
      if Rlt_dec 0 x then Fin (ln x)
      else if Req_dec_T x 0 then Inf true else NaN
  | Inf false => Inf false
  | Inf true => NaN
  end.

(** Comparisons with zero; each is false on [nan]. *)
Definition gt0 (a : float) : bool :=
  match a with
  | Fin x => if Rlt_dec 0 x then true else false
  | Inf neg => negb neg
  | NaN => false
  end.

Definition eq0 (a : float) : bool :=
  match a with
  | Fin x => if Req_dec_T x 0 then true else false
  | _ => false
  end.

Definition ge0 (a : float) : bool := gt0 a || eq0 a.

(** [np.sum] of a float array. *)
Definition sum (l : list float) : float := fold_left add l (Fin 0).

(** [np.mean]: the sum over the number of entries, [nan] for none. *)
Definition mean (l : list float) : float := div (sum l) (of_nat (length l)).

End F.

Import F(float, Fin, Inf, NaN).

(** ** scipy *)

(** [scipy.special.rel_entr]. *)
Definition rel_entr (x y : float) : float :=
  match x, y with
  | NaN, _ | _, NaN => NaN
  | _, _ =>
      if F.gt0 x && F.gt0 y then F.mul x (F.log (F.div x y))
      else if F.eq0 x && F.ge0 y then Fin 0
      else Inf false
  end.

(** [1.0 * x / np.sum(x)]. *)
Definition normalize (x : list float) : list float :=
  map (fun v => F.div (F.mul F.one v) (F.sum x)) x.

(** [scipy.stats.entropy(pk, qk)]: both arguments are normalised again,
    the lengths must agree, and the relative entropies are summed. *)
Definition entropy (pk qk : list float) : result float :=
  let pk := normalize pk in
  if negb (length qk =? length pk)%nat then Raise ValueError
  else
    let qk := normalize qk in
    let vec := map (fun pq => rel_entr (fst pq) (snd pq)) (combine pk qk) in
    Ok (F.sum vec).

(** [x + y] on 1-D float arrays, with numpy's broadcasting of a
    one-element operand. *)
Definition np_add (x y : list float) : result (list float) :=
  if (length x =? length y)%nat
  then Ok (map (fun ab => F.add (fst ab) (snd ab)) (combine x y))
  else match x, y with
       | [a], _ => Ok (map (F.add a) y)
       | _, [b] => Ok (map (fun v => F.add v b) x)
       | _, _ => Raise ValueError
       end.

(** ** The divergence engine *)

(** [p.astype(np.float) / np.sum(p)]. *)
Definition to_distribution (p : list Z) : list float :=
  map (fun c => F.div (F.of_int c) (F.of_int (np_sum p))) p.

Definition jsd (p q : list Z) : result float :=
  let p := to_distribution p in
  let q := to_distribution q in
  s <- np_add p q ;;
  let m := map (F.mul F.half) s in
  e1 <- entropy p m ;;
  e2 <- entropy q m ;;
  Ok (F.mul F.half (F.add e1 e2)).

(** The pairs [(X[i], X[j])], [i < j], in the order [pdist] visits them. *)
Fixpoint pairs {A : Type} (l : list A) : list (A * A) :=
  match l with
  | [] => []
  | a :: l' => map (pair a) l' ++ pairs l'
  end.

(** [scipy.spatial.distance.pdist(X, metric=f)] on a list of arrays: the
    list must convert to a 2-D array (at least one row, rows of one
    length); the result holds [f] at every pair of rows. *)
Definition pdist (X : list (list Z))
                 (metric : list Z -> list Z -> result float)
  : result (list float) :=
  match X with
  | [] => Raise ValueError
  | x0 :: _ =>
      if forallb (fun x => (length x =? length x0)%nat) X
      then mapM (fun ab => metric (fst ab) (snd ab)) (pairs X)
      else Raise ValueError
  end.

(** ** The scores *)

Definition anodi (img0 : image) (imgs : list image) (patch_size : nat)
  : result (float * float) :=
  hist0 <- multipoint_histogram img0 patch_size ;;
  hists <- mapM (fun img => multipoint_histogram img patch_size) imgs ;;
  ds <- mapM (fun h => jsd hist0 h) hists ;;
  let inconsistency := F.mean ds in
  ds' <- pdist hists jsd ;;
  let diversity := F.mean ds' in
  Ok (inconsistency, diversity).

(** ** Reference formulas *)

(** The sum of the entries, as an integer. *)
Definition total (h : list Z) : Z := fold_right Z.add 0 h.

(** The value of a bit sequence read as a binary numeral, first element
    most significant. *)
Fixpoint be_value (x : list Z) : Z :=
  match x with
  | [] => 0
  | b :: r => b * 2 ^ Z.of_nat (length r) + be_value r
  end.

(** The multiply-accumulate sum of [dot] without wrap-around. *)
Definition exact_dot (l : list (Z * Z)) : Z :=
  fold_right (fun xw s => fst xw * snd xw + s) 0 l.

(** The weighted sum behind [bin2dec], without wrap-around. *)
Definition wsum (x : list Z) : Z := exact_dot (combine x (weights (length x))).

(** The [m] binary digits of [n], most significant first. *)
Fixpoint to_bits (m : nat) (n : Z) : list Z :=
  match m with
  | O => []
  | S m' => n / 2 ^ Z.of_nat m' :: to_bits m' (n mod 2 ^ Z.of_nat m')
  end.

(** [l.reshape(rows, k)]: the inverse of row-major flattening. *)
Fixpoint chunks (k rows : nat) (l : list Z) : image :=
  match rows with
  | O => []
  | S r => firstn k l :: chunks k r (skipn k l)
  end.

(** The row whose only set bit is the one weighted [1 << 63]. *)
Definition sign_row (m : nat) : list Z :=
  repeat 0 (m - 64) ++ 1 :: repeat 0 63.

(** The 8 x 8 patch whose only set pixel is the first one. *)
Definition corner_patch : image :=
  (1 :: repeat 0 7) :: repeat (repeat 0 8) 7.

(** A 3 x 3 binary image used to exercise the statements below. *)
Definition sample_image : image := [[0; 1; 1]; [1; 0; 1]; [0; 0; 1]].

(** [1] when [a = v], else [0]: what [a] adds to the bin [v]. *)
Definition indicator (a v : Z) : Z := if Z.eq_dec a v then 1 else 0.

(** A [k] x [k] patch of bits, and its identifier. *)
Definition patch (k : nat) (P : image) : Prop := rect k k P /\ binary P.

Definition encode (P : image) : Z := bin2dec (concat P).

Local Open Scope R_scope.

Definition Rsum (l : list R) : R := fold_right Rplus 0 l.

(** A count array as a probability vector over the reals. *)
Definition probs (p : list Z) : list R :=
  map (fun c => IZR c / IZR (total p)) p.

(** One term of the Kullback-Leibler sum, with [0 * log (0 / y) = 0]. *)
Definition kl_term (x y : R) : R :=
  if Req_dec_T x 0 then 0 else x * ln (x / y).

(** [KL(P || Q)], natural logarithm. *)
Definition KL (P Q : list R) : R :=
  Rsum (map (fun xy => kl_term (fst xy) (snd xy)) (combine P Q)).

Definition mixture (P Q : list R) : list R :=
  map (fun xy => / 2 * (fst xy + snd xy)) (combine P Q).

(** A pair of probabilities whose Kullback-Leibler term is finite. *)
Definition kl_ready (xy : R * R) : Prop :=
  0 <= fst xy /\ 0 <= snd xy /\ (0 < fst xy -> 0 < snd xy).

(** The Jensen-Shannon divergence by its definition. *)
Definition JS (P Q : list R) : R :=
  / 2 * KL P (mixture P Q) + / 2 * KL Q (mixture P Q).

Local Close Scope R_scope.

(** A histogram as [np.bincount] returns it: counts are non-negative and
    their total, the length of the counted array, fits an [int64]. *)
Definition histogram (h : list Z) : Prop :=
  Forall (fun c => 0 <= c) h /\ total h <= Int64.max_signed.

(** ** The dissimilarity matrix *)

(** The rows of the upper triangle of an [n] x [n] matrix, cut from a
    condensed vector in the order [pdist] writes it: the [n-1] distances
    of row 0, then the [n-2] of row 1, and so on. *)
Fixpoint upper_rows (n : nat) (v : list float) : list (list float) :=
  match n with
  | O => []
  | S r => firstn r v :: upper_rows r (skipn r v)
  end.

(** Entry [(i, j)] of the square form: 0 on the diagonal, elsewhere the
    condensed value of the pair, written at [(i, j)] and at [(j, i)]. *)
Definition square_entry (U : list (list float)) (i j : nat) : float :=
  if (i =? j)%nat then Fin 0
  else if (i <? j)%nat then nth (j - i - 1) (nth i U []) (Fin 0)
  else nth (i - j - 1) (nth j U []) (Fin 0).

Definition square (n : nat) (v : list float) : list (list float) :=
  map (fun i => map (fun j => square_entry (upper_rows n v) i j) (seq 0 n))
      (seq 0 n).

(** [scipy.spatial.distance.squareform] on a condensed vector: an empty
    vector gives the 1 x 1 zero matrix; otherwise the side is
    [d = ceil (sqrt (2 * len))], and [len] must be [d * (d - 1) / 2]. *)
Definition squareform (v : list float) : result (list (list float)) :=
  let s := Z.of_nat (length v) in
  if s =? 0 then Ok [[Fin 0]]
  else
    let d := Z.sqrt_up (2 * s) in
    if d * (d - 1) =? 2 * s then Ok (square (Z.to_nat d) v)
    else Raise ValueError.

Definition jsdm (ps : list (list Z)) : result (list (list float)) :=
  v <- pdist ps jsd ;; squareform v.

(** [U] holds, row by row, the divergences of every array of [ps] from
    the arrays that follow it. *)
Inductive upper_of : list (list Z) -> list (list float) -> Prop :=
| upper_of_nil : upper_of [] []
| upper_of_cons (a : list Z) (l : list (list Z)) (row : list float)
                (U : list (list float)) :
    Forall2 (fun y d => jsd a y = Ok d) l row ->
    upper_of l U ->
    upper_of (a :: l) (row :: U).

(** ** The binarizer and the embedding *)

Section External.

(** skimage's [threshold_otsu], for an image of integer intensities: the
    threshold it picks, or the exception it raises. *)
Variable threshold_otsu : image -> result Z.

(** [img > threshold_otsu(img)], [True] as 1 and [False] as 0. *)
Definition otsu (img : image) : result image :=
  t <- threshold_otsu img ;;
  Ok (map (map (fun v => if t <? v then 1 else 0)) img).

(** scikit-learn's [MDS(n_components=2, dissimilarity='precomputed')
    .fit_transform]: the positions it finds for a dissimilarity matrix. *)
Variable fit_transform : list (list float) -> result (list (float * float)).

Definition mds (imgs : list image) (patch_size : nat)
  : result (list (float * float)) :=
  hists <- mapM (fun img => multipoint_histogram img patch_size) imgs ;;
  mat <- jsdm hists ;;
  fit_transform mat.

End External.

(** An image that [multipoint_histogram] accepts for the patch size [k]:
    binary, rectangular, at least [k] x [k], with a number of windows
    that fits an [int64]. *)
Definition valid_image (k : nat) (img : image) : Prop :=
  exists h w : nat,
    rect h w img /\ binary img /\ (k <= h)%nat /\ (k <= w)%nat /\
    Z.of_nat ((h - k + 1) * (w - k + 1)) <= Int64.max_signed.

(** The all-zero [h] x [w] image. *)
Definition zeros (h w : nat) : image := repeat (repeat 0 w) h.

(** An image without a set pixel. *)
Definition blank (img : image) : Prop := Forall (Forall (fun v => v = 0)) img.

(** A histogram for the patch size [k] that can be normalised. *)
Definition good_hist (k : nat) (h : list Z) : Prop :=
  histogram h /\ 0 < total h /\ Z.of_nat (length h) = 2 ^ Z.of_nat (k * k).

(** A double that is neither an infinity nor [nan]. *)
Definition finite (d : float) : Prop := exists x : R, d = Fin x.

(** An image with fewer rows or columns than the patch has. *)
Definition too_small (k : nat) (img : image) : Prop :=
  (height img < k)%nat \/ (width img < k)%nat.

(** * Properties *)

(** Smoke tests: the examples of the docstrings. *)
Example bin2dec_001 : bin2dec [0; 0; 1] = 1.
Proof. reflexivity. Qed.
Example bin2dec_100 : bin2dec [1; 0; 0] = 4.
Proof. reflexivity. Qed.
Example bin2dec_011 : bin2dec [0; 1; 1] = 3.
Proof. reflexivity. Qed.
Example bin2dec_1011 : bin2dec (concat [[1; 0]; [1; 1]]) = 11.
Proof. reflexivity. Qed.

Example histogram_zeros_4x4 :
  multipoint_histogram
    [[0;0;0;0]; [0;0;0;0]; [0;0;0;0]; [0;0;0;0]] 2
  = Ok [9; 0;0;0;0;0;0;0;0;0;0;0;0;0;0;0].
Proof. vm_compute. reflexivity. Qed.

(** ** Wrap-around arithmetic *)

Ltac pow_consts :=
  unfold Int64.in_range, Int64.max_signed, Int64.min_signed, Int64.modulus in *;
  change (2 ^ 63) with 9223372036854775808 in *;
  change (2 ^ 64) with 18446744073709551616 in *.

Lemma wrap_small (z : Z) : Int64.in_range z -> Int64.wrap z = z.
Proof.
  unfold Int64.wrap. pow_consts. intros H.
  rewrite Z.mod_small; lia.
Qed.

Lemma wrap_in_range (z : Z) : Int64.in_range (Int64.wrap z).
Proof.
  unfold Int64.wrap. pow_consts.
  pose proof (Z.mod_pos_bound (z + 9223372036854775808) 18446744073709551616).
  lia.
Qed.

Lemma wrap_add_l (a b : Z) : Int64.wrap (Int64.wrap a + b) = Int64.wrap (a + b).
Proof.
  unfold Int64.wrap. f_equal.
  replace ((a + 2 ^ 63) mod Int64.modulus - 2 ^ 63 + b + 2 ^ 63)
    with ((a + 2 ^ 63) mod Int64.modulus + b) by ring.
  rewrite Z.add_mod_idemp_l by (pow_consts; lia).
  f_equal. ring.
Qed.

Lemma wrap_add_r (a b : Z) : Int64.wrap (a + Int64.wrap b) = Int64.wrap (a + b).
Proof. rewrite (Z.add_comm a), wrap_add_l. f_equal. ring. Qed.

Lemma dot_fold (l : list (Z * Z)) (acc : Z) :
  Int64.in_range acc ->
  fold_left (fun acc xw => Int64.add acc (Int64.mul (fst xw) (snd xw))) l acc
  = Int64.wrap (acc + exact_dot l).
Proof.
  revert acc. induction l as [|[x w] l IH]; intros acc Hacc; simpl.
  - rewrite Z.add_0_r. symmetry. now apply wrap_small.
  - rewrite IH by apply wrap_in_range.
    unfold Int64.add, Int64.mul.
    rewrite wrap_add_l.
    replace (acc + Int64.wrap (x * w) + exact_dot l)
      with (acc + exact_dot l + Int64.wrap (x * w)) by ring.
    rewrite wrap_add_r. f_equal. ring.
Qed.

Lemma dot_exact (x w : list Z) : dot x w = Int64.wrap (exact_dot (combine x w)).
Proof.
  unfold dot. rewrite dot_fold by (pow_consts; lia). reflexivity.
Qed.

Lemma arange_down_S (n : nat) :
  arange_down (S n) = Z.of_nat n :: arange_down n.
Proof.
  unfold arange_down. rewrite seq_S, rev_app_distr. reflexivity.
Qed.

Lemma weights_S (n : nat) :
  weights (S n) = Int64.shl 1 (Z.of_nat n) :: weights n.
Proof. unfold weights. rewrite arange_down_S. reflexivity. Qed.

Lemma bin2dec_wsum (x : list Z) : bin2dec x = Int64.wrap (wsum x).
Proof. apply dot_exact. Qed.

Lemma wsum_cons (b : Z) (r : list Z) :
  wsum (b :: r) = b * Int64.shl 1 (Z.of_nat (length r)) + wsum r.
Proof.
  unfold wsum. cbn [length]. rewrite weights_S. reflexivity.
Qed.

Lemma shl_1_small (s : Z) : 0 <= s < 63 -> Int64.shl 1 s = 2 ^ s.
Proof.
  intros Hs. unfold Int64.shl.
  replace ((0 <=? s) && (s <? 64)) with true
    by (symmetry; apply andb_true_iff; split; [apply Z.leb_le|apply Z.ltb_lt]; lia).
  rewrite Z.mul_1_l. apply wrap_small.
  assert (0 < 2 ^ s) by (apply Z.pow_pos_nonneg; lia).
  assert (2 ^ s <= 2 ^ 62) by (apply Z.pow_le_mono_r; lia).
  pow_consts. change (2 ^ 62) with 4611686018427387904 in *. lia.
Qed.

Lemma shl_1_63 : Int64.shl 1 63 = - 2 ^ 63.
Proof. reflexivity. Qed.

Lemma be_value_bound (x : list Z) :
  bits x -> 0 <= be_value x < 2 ^ Z.of_nat (length x).
Proof.
  induction 1 as [|b r Hb Hr IH]; cbn [be_value length].
  - simpl. lia.
  - rewrite Nat2Z.inj_succ, Z.pow_succ_r by lia.
    destruct Hb; subst; lia.
Qed.

Lemma wsum_be_value (x : list Z) :
  (length x <= 63)%nat -> wsum x = be_value x.
Proof.
  induction x as [|b r IH]; intros Hlen.
  - reflexivity.
  - rewrite wsum_cons. cbn [be_value length] in *.
    rewrite shl_1_small by lia. rewrite IH by lia. reflexivity.
Qed.

(** Up to 63 bits nothing wraps: [bin2dec] is the binary numeral. *)
Lemma bin2dec_be_value (x : list Z) :
  bits x -> (length x <= 63)%nat -> bin2dec x = be_value x.
Proof.
  intros Hb Hlen. rewrite bin2dec_wsum, wsum_be_value by assumption.
  apply wrap_small. pose proof (be_value_bound Hb) as Hv.
  assert (2 ^ Z.of_nat (length x) <= 2 ^ 63) by (apply Z.pow_le_mono_r; lia).
  pow_consts. lia.
Qed.

(** ** The encoder beyond 63 bits *)

Lemma wsum_zero_cons (r : list Z) : wsum (0 :: r) = wsum r.
Proof. rewrite wsum_cons. lia. Qed.

Lemma wsum_zeros_app (n : nat) (r : list Z) : wsum (repeat 0 n ++ r) = wsum r.
Proof.
  induction n as [|n IH]; cbn [repeat app].
  - reflexivity.
  - now rewrite wsum_zero_cons.
Qed.

Lemma wsum_zeros (n : nat) : wsum (repeat 0 n) = 0.
Proof.
  induction n as [|n IH]; cbn [repeat].
  - reflexivity.
  - now rewrite wsum_zero_cons.
Qed.

Lemma bits_repeat_0 (n : nat) : bits (repeat 0 n).
Proof. apply Forall_forall. intros b Hb. apply repeat_spec in Hb. now left. Qed.

Lemma sign_row_bits (m : nat) : bits (sign_row m).
Proof.
  apply Forall_app. split; [apply bits_repeat_0|].
  constructor; [now right | apply bits_repeat_0].
Qed.

Lemma sign_row_length (m : nat) : (64 <= m)%nat -> length (sign_row m) = m.
Proof.
  intros Hm. unfold sign_row.
  rewrite length_app. cbn [length]. rewrite !repeat_length. lia.
Qed.

Lemma bin2dec_sign_row (m : nat) : bin2dec (sign_row m) = - 2 ^ 63.
Proof.
  rewrite bin2dec_wsum. unfold sign_row.
  rewrite wsum_zeros_app, wsum_cons, wsum_zeros, repeat_length.
  reflexivity.
Qed.

(** C10.  A row of at most 63 bits is encoded to its binary numeral, which
    lies in [[0, 2^m)]; from 64 bits on the [int64] arithmetic wraps and
    some row is encoded to a negative identifier.  So the identifier
    contract holds exactly for the lengths [m <= 63]. *)
Theorem bin2dec_contract_iff (m : nat) :
  (forall x : list Z,
      length x = m -> bits x -> 0 <= bin2dec x < 2 ^ Z.of_nat m)
  <-> (m <= 63)%nat.
Proof.
  split.
  - intros Hall. destruct (Nat.le_gt_cases m 63) as [Hle|Hgt]; [assumption|].
    exfalso.
    specialize (Hall (sign_row m) (sign_row_length Hgt) (sign_row_bits m)).
    rewrite bin2dec_sign_row in Hall. pow_consts. lia.
  - intros Hm x Hlen Hb. subst m.
    rewrite bin2dec_be_value by assumption. now apply be_value_bound.
Qed.

(** At 64 bits the first bit alone already gives a negative identifier. *)
Example bin2dec_64_negative :
  bin2dec (1 :: repeat 0 63) = -9223372036854775808.
Proof. vm_compute. reflexivity. Qed.

(** At 65 bits the first bit has weight [1 << 64 = 0], and two rows
    collide. *)
Example bin2dec_65_collision :
  bin2dec (1 :: repeat 0 64) = bin2dec (0 :: repeat 0 64).
Proof. vm_compute. reflexivity. Qed.

(** ** The encoder is a bijection *)

Lemma be_value_inj (x y : list Z) :
  bits x -> bits y -> length x = length y ->
  be_value x = be_value y -> x = y.
Proof.
  intros Hx. revert y.
  induction Hx as [|a x Ha Hx IH]; intros y Hy Hlen Hv.
  - destruct y; [reflexivity | discriminate].
  - destruct Hy as [|b y Hb Hy]; [discriminate|].
    cbn [length be_value] in *.
    injection Hlen as Hlen. rewrite <- Hlen in Hv.
    pose proof (be_value_bound Hx) as Bx.
    pose proof (be_value_bound Hy) as By. rewrite <- Hlen in By.
    assert (a = b) by (destruct Ha, Hb; subst; lia).
    subst b. f_equal. apply IH; [assumption | assumption | lia].
Qed.

Lemma app_eq_length {A : Type} (a c b d : list A) :
  length a = length c -> a ++ b = c ++ d -> a = c /\ b = d.
Proof.
  revert c. induction a as [|x a IH]; intros [|y c] Hlen Heq;
    try discriminate.
  - now split.
  - cbn in *. injection Heq as -> Heq. injection Hlen as Hlen.
    destruct (IH _ Hlen Heq) as [-> ->]. now split.
Qed.

Lemma concat_inj (w : nat) (P Q : image) :
  Forall (fun r => length r = w) P -> Forall (fun r => length r = w) Q ->
  length P = length Q -> concat P = concat Q -> P = Q.
Proof.
  intros HP. revert Q.
  induction HP as [|p P Hp HP IH]; intros Q HQ Hlen Heq.
  - destruct Q; [reflexivity | discriminate].
  - destruct HQ as [|q Q Hq HQ]; [discriminate|].
    cbn [concat length] in *. injection Hlen as Hlen.
    destruct (app_eq_length p q (concat P) (concat Q)) as [-> Hc];
      [congruence | assumption |].
    f_equal. now apply IH.
Qed.

Lemma concat_length_rect (h w : nat) (P : image) :
  rect h w P -> length (concat P) = (h * w)%nat.
Proof.
  intros [Hlen Hrows]. subst h.
  induction Hrows as [|p P Hp HP IH]; cbn [concat length].
  - reflexivity.
  - rewrite length_app, IH, Hp. lia.
Qed.

Lemma concat_bits (P : image) : binary P -> bits (concat P).
Proof.
  induction 1 as [|p P Hp HP IH]; cbn [concat].
  - constructor.
  - apply Forall_app. now split.
Qed.

Lemma to_bits_length (m : nat) (n : Z) : length (to_bits m n) = m.
Proof.
  revert n. induction m as [|m IH]; intros n; cbn [to_bits length].
  - reflexivity.
  - now rewrite IH.
Qed.

Lemma to_bits_bits (m : nat) (n : Z) :
  0 <= n < 2 ^ Z.of_nat m -> bits (to_bits m n).
Proof.
  revert n. induction m as [|m IH]; intros n Hn; cbn [to_bits].
  - constructor.
  - rewrite Nat2Z.inj_succ, Z.pow_succ_r in Hn by lia.
    assert (Hp : 0 < 2 ^ Z.of_nat m) by (apply Z.pow_pos_nonneg; lia).
    constructor.
    + assert (0 <= n / 2 ^ Z.of_nat m < 2).
      { split; [apply Z.div_pos; lia | apply Z.div_lt_upper_bound; lia]. }
      unfold is_bit. lia.
    + apply IH. apply Z.mod_pos_bound. lia.
Qed.

Lemma be_value_to_bits (m : nat) (n : Z) :
  0 <= n < 2 ^ Z.of_nat m -> be_value (to_bits m n) = n.
Proof.
  revert n. induction m as [|m IH]; intros n Hn; cbn [to_bits be_value].
  - simpl in Hn. lia.
  - assert (Hp : 0 < 2 ^ Z.of_nat m) by (apply Z.pow_pos_nonneg; lia).
    rewrite to_bits_length, IH by (apply Z.mod_pos_bound; lia).
    rewrite (Z.div_mod n (2 ^ Z.of_nat m)) at 3 by lia. ring.
Qed.

Lemma concat_chunks (k rows : nat) (l : list Z) :
  length l = (rows * k)%nat -> concat (chunks k rows l) = l.
Proof.
  revert l. induction rows as [|r IH]; intros l Hlen; cbn [chunks concat].
  - destruct l; [reflexivity | discriminate].
  - rewrite IH by (rewrite length_skipn; lia). apply firstn_skipn.
Qed.

Lemma chunks_rect (k rows : nat) (l : list Z) :
  length l = (rows * k)%nat -> rect rows k (chunks k rows l).
Proof.
  revert l. induction rows as [|r IH]; intros l Hlen; cbn [chunks].
  - split; [reflexivity | constructor].
  - destruct (IH (skipn k l)) as [Hn Hrows]; [rewrite length_skipn; lia|].
    split; [cbn [length]; now rewrite Hn|].
    constructor; [|assumption]. rewrite length_firstn. lia.
Qed.

Lemma bits_firstn (k : nat) (l : list Z) : bits l -> bits (firstn k l).
Proof.
  intros Hl. rewrite <- (firstn_skipn k l) in Hl.
  now apply Forall_app in Hl.
Qed.

Lemma bits_skipn (k : nat) (l : list Z) : bits l -> bits (skipn k l).
Proof.
  intros Hl. rewrite <- (firstn_skipn k l) in Hl.
  now apply Forall_app in Hl.
Qed.

Lemma chunks_binary (k rows : nat) (l : list Z) :
  bits l -> binary (chunks k rows l).
Proof.
  revert l. induction rows as [|r IH]; intros l Hl; cbn [chunks].
  - constructor.
  - constructor; [now apply bits_firstn | apply IH; now apply bits_skipn].
Qed.

Lemma encode_be_value (k : nat) (P : image) :
  (k * k <= 63)%nat -> patch k P ->
  encode P = be_value (concat P) /\ 0 <= encode P < 2 ^ Z.of_nat (k * k).
Proof.
  intros Hk [Hrect Hbin]. unfold encode.
  pose proof (concat_length_rect Hrect) as Hlen.
  pose proof (concat_bits Hbin) as Hb.
  rewrite bin2dec_be_value by (assumption || lia).
  split; [reflexivity|]. rewrite <- Hlen. now apply be_value_bound.
Qed.

(** C9, as the encoder implements it.  For every patch size [k] with
    [k * k <= 63] (that is [k <= 7]) the identifier of a [k] x [k] binary
    patch is the binary numeral of its row-major flattening, first pixel
    most significant, and patch -> identifier is a bijection onto
    [[0, 2^(k*k))]: it lands in the interval, is injective and reaches
    every integer of the interval. *)
Theorem encode_bijection (k : nat) :
  (k * k <= 63)%nat ->
  (forall P, patch k P ->
     encode P = be_value (concat P) /\ 0 <= encode P < 2 ^ Z.of_nat (k * k)) /\
  (forall P Q, patch k P -> patch k Q -> encode P = encode Q -> P = Q) /\
  (forall n, 0 <= n < 2 ^ Z.of_nat (k * k) ->
     exists P, patch k P /\ encode P = n).
Proof.
  intros Hk. split; [|split].
  - intros P HP. now apply encode_be_value.
  - intros P Q HP HQ Heq.
    destruct (encode_be_value Hk HP) as [EP _].
    destruct (encode_be_value Hk HQ) as [EQ _].
    destruct HP as [[HPn HPr] HPb], HQ as [[HQn HQr] HQb].
    apply (concat_inj HPr HQr); [congruence|].
    apply be_value_inj; try now apply concat_bits.
    + rewrite (concat_length_rect (conj HPn HPr)).
      now rewrite (concat_length_rect (conj HQn HQr)).
    + congruence.
  - intros n Hn.
    pose proof (to_bits_length (k * k) n) as Hlen.
    pose proof (to_bits_bits _ Hn) as Hb.
    exists (chunks k k (to_bits (k * k) n)).
    assert (HP : patch k (chunks k k (to_bits (k * k) n))).
    { split; [now apply chunks_rect | now apply chunks_binary]. }
    split; [assumption|].
    destruct (encode_be_value Hk HP) as [-> _].
    rewrite concat_chunks by assumption. now apply be_value_to_bits.
Qed.

Lemma encode_bijection_witness :
  (2 * 2 <= 63)%nat /\
  ((forall P, patch 2 P ->
      encode P = be_value (concat P) /\ 0 <= encode P < 2 ^ Z.of_nat (2 * 2)) /\
   (forall P Q, patch 2 P -> patch 2 Q -> encode P = encode Q -> P = Q) /\
   (forall n, 0 <= n < 2 ^ Z.of_nat (2 * 2) ->
      exists P, patch 2 P /\ encode P = n)).
Proof.
  split; [simpl; lia | apply (encode_bijection 2); simpl; lia].
Defined.

Lemma corner_patch_is_patch : patch 8 corner_patch.
Proof.
  split; [split; [reflexivity | repeat constructor]|].
  unfold binary, bits, corner_patch. cbn [repeat].
  repeat (apply Forall_cons;
          [repeat (apply Forall_cons; [(now left) || (now right)|]);
           apply Forall_nil|]).
  apply Forall_nil.
Qed.

(** C9 as stated fails at [k = 8]: the 8 x 8 patch with only its first
    pixel set is encoded to [-2^63], outside [[0, 2^64)]. *)
Lemma encode_8x8_out_of_range :
  patch 8 corner_patch /\
  encode corner_patch = - 2 ^ 63 /\
  ~ (0 <= encode corner_patch < 2 ^ Z.of_nat (8 * 8)).
Proof.
  split; [apply corner_patch_is_patch|].
  assert (E : encode corner_patch = - 2 ^ 63) by (vm_compute; reflexivity).
  split; [assumption|]. rewrite E. pow_consts. lia.
Qed.

(** ** Counting *)

Lemma total_cons (a : Z) (l : list Z) : total (a :: l) = a + total l.
Proof. reflexivity. Qed.

Lemma total_app (a b : list Z) : total (a ++ b) = total a + total b.
Proof.
  induction a as [|x a IH]; cbn [app].
  - reflexivity.
  - rewrite !total_cons, IH. ring.
Qed.

Lemma total_map_add {A : Type} (f g : A -> Z) (l : list A) :
  total (map (fun i => f i + g i) l) = total (map f l) + total (map g l).
Proof.
  induction l as [|a l IH]; cbn [map].
  - reflexivity.
  - rewrite !total_cons, IH. ring.
Qed.

Lemma count_cons (a : Z) (x : list Z) (v : Z) :
  count (a :: x) v = indicator a v + count x v.
Proof.
  unfold count, indicator. cbn [count_occ].
  destruct (Z.eq_dec a v); lia.
Qed.

Lemma total_indicator (a : Z) (n s : nat) :
  total (map (fun i => indicator a (Z.of_nat i)) (seq s n))
  = if (Z.of_nat s <=? a) && (a <? Z.of_nat (s + n)) then 1 else 0.
Proof.
  revert s. induction n as [|n IH]; intros s; cbn [seq map].
  - destruct (Z.leb_spec (Z.of_nat s) a), (Z.ltb_spec a (Z.of_nat (s + 0)));
      cbn; lia.
  - rewrite total_cons, IH. unfold indicator.
    destruct (Z.eq_dec a (Z.of_nat s)),
      (Z.leb_spec (Z.of_nat (S s)) a), (Z.ltb_spec a (Z.of_nat (S s + n))),
      (Z.leb_spec (Z.of_nat s) a), (Z.ltb_spec a (Z.of_nat (s + S n)));
      cbn; lia.
Qed.

(** Every counted value falls in exactly one bin. *)
Lemma total_counts (x : list Z) (n : nat) :
  Forall (fun v => 0 <= v < Z.of_nat n) x ->
  total (map (fun i => count x (Z.of_nat i)) (seq 0 n)) = Z.of_nat (length x).
Proof.
  induction 1 as [|a x Ha Hx IH].
  - cbn [length]. induction (seq 0 n) as [|i l IHl]; [reflexivity|].
    cbn [map]. rewrite total_cons, IHl. reflexivity.
  - rewrite (map_ext _ (fun i => indicator a (Z.of_nat i) + count x (Z.of_nat i)))
      by (intros i; apply count_cons).
    rewrite total_map_add, IH, total_indicator. cbn [length].
    destruct (Z.leb_spec (Z.of_nat 0) a), (Z.ltb_spec a (Z.of_nat (0 + n)));
      cbn [andb]; lia.
Qed.

Lemma amax_bound (x : list Z) (n : Z) :
  0 < n -> Forall (fun v => 0 <= v < n) x -> amax x < n.
Proof.
  intros Hn. induction 1 as [|a x Ha Hx IH].
  - cbn. lia.
  - change (amax (a :: x)) with (Z.max a (amax x)). lia.
Qed.

Lemma existsb_negative (x : list Z) (n : Z) :
  Forall (fun v => 0 <= v < n) x -> existsb (fun v => v <? 0) x = false.
Proof.
  induction 1 as [|a x Ha Hx IH]; cbn [existsb].
  - reflexivity.
  - rewrite IH. destruct (Z.ltb_spec a 0); [lia | reflexivity].
Qed.

(** [bincount] on identifiers that all fall below [minlength]. *)
Lemma bincount_ok (x : list Z) (n : Z) :
  0 <= n <= Int64.max_signed -> Forall (fun v => 0 <= v < n) x ->
  bincount x n
  = Ok (map (fun i => count x (Z.of_nat i)) (seq 0 (Z.to_nat n))).
Proof.
  intros Hn Hx. unfold bincount.
  destruct (Z.ltb_spec Int64.max_signed n); [lia|].
  rewrite (existsb_negative Hx).
  destruct x as [|a x]; [reflexivity|].
  assert (0 < n) by (inversion Hx; lia).
  pose proof (amax_bound H0 Hx). now rewrite Z.max_l by lia.
Qed.

(** ** Windows of an image *)

Lemma Forall_firstn {A : Type} (P : A -> Prop) (k : nat) (l : list A) :
  Forall P l -> Forall P (firstn k l).
Proof.
  intros Hl. rewrite <- (firstn_skipn k l) in Hl. now apply Forall_app in Hl.
Qed.

Lemma Forall_skipn {A : Type} (P : A -> Prop) (k : nat) (l : list A) :
  Forall P l -> Forall P (skipn k l).
Proof.
  intros Hl. rewrite <- (firstn_skipn k l) in Hl. now apply Forall_app in Hl.
Qed.

Lemma rect_width (h w : nat) (img : image) :
  rect h w img -> (1 <= h)%nat -> width img = w.
Proof.
  intros [Hlen Hrows] Hh. unfold width.
  destruct Hrows as [|r img Hr _]; [cbn in Hlen; lia | exact Hr].
Qed.

Lemma window_patch (h w k i j : nat) (img : image) :
  rect h w img -> binary img ->
  (i + k <= h)%nat -> (j + k <= w)%nat -> patch k (window img k i j).
Proof.
  intros [Hlen Hrows] Hbin Hi Hj. unfold window, patch, rect, binary.
  rewrite length_map, length_firstn, length_skipn.
  split; [split; [lia|]|]; apply Forall_map, Forall_firstn, Forall_skipn.
  - eapply Forall_impl; [|exact Hrows]. cbn. intros r Hr.
    rewrite length_firstn, length_skipn. lia.
  - eapply Forall_impl; [|exact Hbin]. cbn. intros r Hr.
    now apply bits_firstn, bits_skipn.
Qed.

Lemma length_flat_map_const {A B : Type} (f : A -> list B) (c : nat)
      (l : list A) :
  (forall a, length (f a) = c) -> length (flat_map f l) = (length l * c)%nat.
Proof.
  intros Hf. induction l as [|a l IH]; cbn [flat_map length].
  - reflexivity.
  - rewrite length_app, Hf, IH. lia.
Qed.

Lemma windows_length (img : image) (k : nat) :
  length (windows img k)
  = ((height img - k + 1) * (width img - k + 1))%nat.
Proof.
  unfold windows.
  rewrite length_flat_map_const with (c := (width img - k + 1)%nat), length_seq;
    [reflexivity|].
  intros i. now rewrite length_map, length_seq.
Qed.

Lemma windows_patches (h w k : nat) (img : image) :
  rect h w img -> binary img -> (1 <= k <= h)%nat -> (k <= w)%nat ->
  Forall (patch k) (windows img k).
Proof.
  intros Hrect Hbin Hk Hw. unfold windows.
  rewrite (rect_width Hrect) by lia.
  replace (height img) with h by (symmetry; apply Hrect).
  apply Forall_flat_map, Forall_forall. intros i Hi.
  apply Forall_map, Forall_forall. intros j Hj.
  apply in_seq in Hi, Hj.
  eapply window_patch; eauto; lia.
Qed.

Lemma extract_patches_2d_ok (h w k : nat) (img : image) :
  rect h w img -> (1 <= k <= h)%nat -> (k <= w)%nat ->
  extract_patches_2d img k = Ok (windows img k).
Proof.
  intros Hrect Hk Hw. unfold extract_patches_2d.
  rewrite (rect_width Hrect) by lia.
  replace (height img) with h by (symmetry; apply Hrect).
  destruct (Nat.ltb_spec h k); [lia|].
  destruct (Nat.ltb_spec w k); [lia|].
  destruct (Nat.eqb_spec k 0); [lia | reflexivity].
Qed.

Lemma pow_square (k : nat) :
  2 ^ (Z.of_nat k ^ 2) = 2 ^ Z.of_nat (k * k).
Proof. f_equal. rewrite Z.pow_2_r. lia. Qed.

(** The identifiers of the windows all fall below [2^(k*k)]. *)
Lemma window_ids_bound (k : nat) (ps : list image) :
  (k <= 7)%nat -> Forall (patch k) ps ->
  Forall (fun v => 0 <= v < 2 ^ Z.of_nat (k * k))
         (bin2dec_rows (map (@concat Z) ps)).
Proof.
  intros Hk Hps. unfold bin2dec_rows. rewrite map_map.
  apply Forall_map. eapply Forall_impl; [|exact Hps].
  intros P HP. apply (encode_be_value (k := k)); [nia | assumption].
Qed.

(** What the histogram builder returns on a valid call. *)
Lemma multipoint_histogram_ok (h w k : nat) (img : image) :
  rect h w img -> binary img ->
  (1 <= k <= h)%nat -> (k <= w)%nat -> (k <= 7)%nat ->
  exists hist,
    multipoint_histogram img k = Ok hist /\
    Z.of_nat (length hist) = 2 ^ Z.of_nat (k * k) /\
    total hist = Z.of_nat ((h - k + 1) * (w - k + 1)) /\
    Forall (fun c => 0 <= c) hist.
Proof.
  intros Hrect Hbin Hk Hw Hk7.
  pose proof (windows_patches Hrect Hbin Hk Hw) as Hps.
  pose proof (window_ids_bound Hk7 Hps) as Hids.
  assert (Hpow : 0 < 2 ^ Z.of_nat (k * k) <= Int64.max_signed).
  { split; [apply Z.pow_pos_nonneg; lia|].
    assert (2 ^ Z.of_nat (k * k) <= 2 ^ 49) by (apply Z.pow_le_mono_r; nia).
    pow_consts. change (2 ^ 49) with 562949953421312 in *. lia. }
  eexists. unfold multipoint_histogram.
  rewrite (extract_patches_2d_ok Hrect Hk Hw). cbn [bind].
  rewrite pow_square, bincount_ok by (assumption || lia).
  split; [reflexivity|].
  split; [|split].
  - rewrite length_map, length_seq. lia.
  - rewrite <- (Z2Nat.id (2 ^ Z.of_nat (k * k))) in Hids by lia.
    rewrite total_counts by exact Hids.
    unfold bin2dec_rows. rewrite !length_map, windows_length.
    rewrite (rect_width Hrect) by lia.
    replace (height img) with h by (symmetry; apply Hrect). reflexivity.
  - apply Forall_map, Forall_forall. intros i _. unfold count. lia.
Qed.

(** From patch size 8 on, [2^(k*k)] does not fit the [minlength]
    argument. *)
Lemma multipoint_histogram_overflow (k : nat) (img : image) (hist : list Z) :
  (8 <= k)%nat -> multipoint_histogram img k <> Ok hist.
Proof.
  intros Hk. unfold multipoint_histogram.
  destruct (extract_patches_2d img k) as [ps|e]; cbn [bind]; [|discriminate].
  unfold bincount. rewrite pow_square.
  assert (2 ^ 64 <= 2 ^ Z.of_nat (k * k)) by (apply Z.pow_le_mono_r; nia).
  destruct (Z.ltb_spec Int64.max_signed (2 ^ Z.of_nat (k * k)));
    [discriminate | pow_consts; lia].
Qed.

(** Concrete images: shape and pixel checks by enumeration. *)
Ltac solve_bits :=
  repeat (apply Forall_cons; [(now left) || (now right)|]); apply Forall_nil.

Ltac solve_binary :=
  repeat (apply Forall_cons; [solve_bits|]); apply Forall_nil.

Ltac solve_rect := split; [reflexivity | repeat constructor].

Lemma sample_image_rect : rect 3 3 sample_image.
Proof. solve_rect. Qed.

Lemma sample_image_binary : binary sample_image.
Proof. unfold sample_image. solve_binary. Qed.

Example sample_histogram :
  multipoint_histogram sample_image 2
  = Ok [0; 0; 0; 0; 0; 1; 1; 0; 1; 0; 0; 0; 0; 1; 0; 0].
Proof. vm_compute. reflexivity. Qed.

(** ** The histogram builder *)

(** C4.  When the patch size exceeds the height or the width of the
    image, [multipoint_histogram] raises (the [ValueError] of the patch
    extraction) and returns no histogram. *)
Theorem multipoint_histogram_patch_too_large (img : image) (k : nat) :
  (height img < k)%nat \/ (width img < k)%nat ->
  multipoint_histogram img k = Raise ValueError.
Proof.
  intros Hk. unfold multipoint_histogram, extract_patches_2d.
  destruct (Nat.ltb_spec (height img) k); [reflexivity|].
  destruct (Nat.ltb_spec (width img) k); [reflexivity|]. lia.
Qed.

Lemma multipoint_histogram_patch_too_large_witness :
  ((height sample_image < 4)%nat \/ (width sample_image < 4)%nat) /\
  multipoint_histogram sample_image 4 = Raise ValueError.
Proof.
  split; [left; cbn; lia|].
  apply (@multipoint_histogram_patch_too_large sample_image 4).
  left; cbn; lia.
Defined.

(** C7.  For a binary [h] x [w] image and a patch size [1 <= k <= h, w]
    the histogram that [multipoint_histogram] returns has exactly
    [2^(k*k)] entries, whichever identifiers occur; and a histogram is
    returned for every [k <= 7]. *)
Theorem multipoint_histogram_length (h w k : nat) (img : image) :
  rect h w img -> binary img -> (1 <= k <= h)%nat -> (k <= w)%nat ->
  (forall hist, multipoint_histogram img k = Ok hist ->
                Z.of_nat (length hist) = 2 ^ Z.of_nat (k * k)) /\
  ((k <= 7)%nat -> exists hist, multipoint_histogram img k = Ok hist).
Proof.
  intros Hrect Hbin Hk Hw. split.
  - intros hist Hh. destruct (Nat.le_gt_cases k 7) as [Hk7|Hk8].
    + destruct (multipoint_histogram_ok Hrect Hbin Hk Hw Hk7)
        as (hist' & E & Hlen & _).
      congruence.
    + exfalso. eapply multipoint_histogram_overflow; [|exact Hh]. lia.
  - intros Hk7.
    destruct (multipoint_histogram_ok Hrect Hbin Hk Hw Hk7) as (hist & E & _).
    now exists hist.
Qed.

Lemma multipoint_histogram_length_witness :
  (forall hist, multipoint_histogram sample_image 2 = Ok hist ->
                Z.of_nat (length hist) = 2 ^ Z.of_nat (2 * 2)) /\
  ((2 <= 7)%nat -> exists hist, multipoint_histogram sample_image 2 = Ok hist).
Proof.
  apply (@multipoint_histogram_length 3 3 2 sample_image).
  - apply sample_image_rect.
  - apply sample_image_binary.
  - lia.
  - lia.
Defined.

(** C8.  For a binary [h] x [w] image and a patch size [1 <= k <= h, w]
    the entries of the returned histogram sum to [(h-k+1) * (w-k+1)], the
    number of window positions; and a histogram is returned for every
    [k <= 7]. *)
Theorem multipoint_histogram_total (h w k : nat) (img : image) :
  rect h w img -> binary img -> (1 <= k <= h)%nat -> (k <= w)%nat ->
  (forall hist, multipoint_histogram img k = Ok hist ->
     total hist
     = (Z.of_nat h - Z.of_nat k + 1) * (Z.of_nat w - Z.of_nat k + 1)) /\
  ((k <= 7)%nat -> exists hist, multipoint_histogram img k = Ok hist).
Proof.
  intros Hrect Hbin Hk Hw. split.
  - intros hist Hh. destruct (Nat.le_gt_cases k 7) as [Hk7|Hk8].
    + destruct (multipoint_histogram_ok Hrect Hbin Hk Hw Hk7)
        as (hist' & E & _ & Htot & _).
      assert (hist' = hist) by congruence. subst hist'.
      rewrite Htot, Nat2Z.inj_mul. f_equal; lia.
    + exfalso. eapply multipoint_histogram_overflow; [|exact Hh]. lia.
  - intros Hk7.
    destruct (multipoint_histogram_ok Hrect Hbin Hk Hw Hk7) as (hist & E & _).
    now exists hist.
Qed.

Lemma multipoint_histogram_total_witness :
  (forall hist, multipoint_histogram sample_image 2 = Ok hist ->
     total hist
     = (Z.of_nat 3 - Z.of_nat 2 + 1) * (Z.of_nat 3 - Z.of_nat 2 + 1)) /\
  ((2 <= 7)%nat -> exists hist, multipoint_histogram sample_image 2 = Ok hist).
Proof.
  apply (@multipoint_histogram_total 3 3 2 sample_image).
  - apply sample_image_rect.
  - apply sample_image_binary.
  - lia.
  - lia.
Defined.

(** ** Kullback-Leibler terms

    Facts about the real-valued reference formula [JS]: symmetry, its
    range and where it vanishes. *)

Section KLTerms.

Local Open Scope R_scope.

Lemma ln_monotone (x y : R) : 0 < x -> x <= y -> ln x <= ln y.
Proof.
  intros Hx [Hlt|Heq].
  - left. now apply ln_increasing.
  - subst. right. reflexivity.
Qed.

Lemma ln_upper (t : R) : 0 < t -> ln t <= t - 1.
Proof.
  intros Ht. pose proof (exp_ineq1_le (ln t)) as H.
  rewrite exp_ln in H by assumption. lra.
Qed.

(** [x * ln (x / m) >= x - m]. *)
Lemma kl_term_lower (x m : R) :
  0 <= x -> 0 <= m -> (0 < x -> 0 < m) -> x - m <= kl_term x m.
Proof.
  intros Hx Hm Hpos. unfold kl_term.
  destruct (Req_dec_T x 0) as [->|Hne]; [lra|].
  assert (Hx' : 0 < x) by lra. specialize (Hpos Hx').
  assert (Hq : 0 < m / x) by (apply Rdiv_lt_0_compat; assumption).
  replace (x / m) with (/ (m / x)) by (field; lra).
  rewrite ln_Rinv by assumption.
  pose proof (ln_upper Hq) as Hu.
  assert (x * ln (m / x) <= x * (m / x - 1))
    by (apply Rmult_le_compat_l; lra).
  replace (x * (m / x - 1)) with (m - x) in H by (field; lra).
  lra.
Qed.

(** Against the mixture a term is at most [x * ln 2]. *)
Lemma kl_term_mix_upper (x y : R) :
  0 <= x -> 0 <= y -> kl_term x (/ 2 * (x + y)) <= x * ln 2.
Proof.
  intros Hx Hy. unfold kl_term.
  destruct (Req_dec_T x 0) as [->|Hne]; [lra|].
  assert (Hx' : 0 < x) by lra.
  assert (Hm : 0 < / 2 * (x + y)) by lra.
  apply Rmult_le_compat_l; [lra|].
  apply ln_monotone.
  - apply Rdiv_lt_0_compat; assumption.
  - apply (Rmult_le_reg_r (/ 2 * (x + y))); [assumption|].
    replace (x / (/ 2 * (x + y)) * (/ 2 * (x + y))) with x by (field; lra).
    lra.
Qed.

Lemma kl_term_mix_lower (x y : R) :
  0 <= x -> 0 <= y ->
  x - / 2 * (x + y) <= kl_term x (/ 2 * (x + y)).
Proof.
  intros Hx Hy. apply kl_term_lower; lra.
Qed.

Lemma mixture_comm (P Q : list R) : mixture P Q = mixture Q P.
Proof.
  unfold mixture. revert Q.
  induction P as [|x P IH]; intros [|y Q]; cbn [combine map];
    try reflexivity.
  rewrite IH. cbn [fst snd]. f_equal. ring.
Qed.

Lemma Rsum_mixture (P Q : list R) :
  length P = length Q ->
  Rsum (mixture P Q) = / 2 * (Rsum P + Rsum Q).
Proof.
  unfold mixture. revert Q.
  induction P as [|x P IH]; intros [|y Q] Hlen; try discriminate;
    cbn [combine map Rsum fold_right fst snd].
  - ring.
  - injection Hlen as Hlen. specialize (IH _ Hlen).
    unfold Rsum in IH. rewrite IH. ring.
Qed.

Lemma KL_mixture_bounds (P Q : list R) :
  length P = length Q ->
  Forall (fun x => 0 <= x) P -> Forall (fun y => 0 <= y) Q ->
  Rsum P - Rsum (mixture P Q) <= KL P (mixture P Q) <= Rsum P * ln 2.
Proof.
  unfold KL, mixture. intros Hlen HP. revert Q Hlen.
  induction HP as [|x P Hx HP IH]; intros [|y Q] Hlen HQ;
    try discriminate; cbn [combine map Rsum fold_right fst snd].
  - lra.
  - injection Hlen as Hlen. inversion HQ as [|y' Q' Hy HQ']; subst.
    specialize (IH _ Hlen HQ'). unfold Rsum in IH.
    pose proof (kl_term_mix_upper Hx Hy).
    pose proof (kl_term_mix_lower Hx Hy).
    lra.
Qed.

(** Jensen-Shannon divergence of two probability vectors. *)
Lemma JS_bounds (P Q : list R) :
  length P = length Q ->
  Forall (fun x => 0 <= x) P -> Forall (fun y => 0 <= y) Q ->
  Rsum P = 1 -> Rsum Q = 1 ->
  0 <= JS P Q <= ln 2.
Proof.
  intros Hlen HP HQ SP SQ. unfold JS.
  pose proof (KL_mixture_bounds Hlen HP HQ) as BP.
  pose proof (KL_mixture_bounds (eq_sym Hlen) HQ HP) as BQ.
  rewrite (mixture_comm Q P) in BQ.
  rewrite (@Rsum_mixture P Q Hlen), SP, SQ in BP, BQ.
  lra.
Qed.

Lemma JS_comm (P Q : list R) : JS P Q = JS Q P.
Proof. unfold JS. rewrite (mixture_comm Q P). ring. Qed.

End KLTerms.

(** ** Histograms as probability vectors *)

Lemma np_sum_fold (x : list Z) (acc : Z) :
  Int64.in_range acc ->
  fold_left Int64.add x acc = Int64.wrap (acc + total x).
Proof.
  revert acc. induction x as [|a x IH]; intros acc Hacc; cbn [fold_left].
  - cbn. rewrite Z.add_0_r. symmetry. now apply wrap_small.
  - rewrite IH by apply wrap_in_range. rewrite total_cons.
    unfold Int64.add. rewrite wrap_add_l. f_equal. ring.
Qed.

Lemma total_nonneg (h : list Z) : Forall (fun c => 0 <= c) h -> 0 <= total h.
Proof.
  induction 1 as [|c h Hc Hh IH]; [cbn; lia | rewrite total_cons; lia].
Qed.

(** The counts of a histogram are summed without wrap-around. *)
Lemma np_sum_total (h : list Z) : histogram h -> np_sum h = total h.
Proof.
  intros [Hnn Hmax]. unfold np_sum.
  rewrite np_sum_fold by (pow_consts; lia). cbn [Z.add].
  apply wrap_small. pose proof (total_nonneg Hnn). pow_consts. lia.
Qed.

Section Distributions.

Local Open Scope R_scope.

Lemma F_sum_fold (l : list R) (a : R) :
  fold_left F.add (map Fin l) (Fin a) = Fin (a + Rsum l).
Proof.
  revert a. induction l as [|x l IH]; intros a; cbn [map fold_left].
  - f_equal. change (Rsum []) with 0. ring.
  - cbn [F.add]. rewrite IH. f_equal.
    change (Rsum (x :: l)) with (x + Rsum l). ring.
Qed.

Lemma F_sum_Fin (l : list R) : F.sum (map Fin l) = Fin (Rsum l).
Proof. unfold F.sum. rewrite F_sum_fold. f_equal. ring. Qed.

Lemma probs_length (p : list Z) : length (probs p) = length p.
Proof. unfold probs. apply length_map. Qed.

Lemma to_distribution_probs (p : list Z) :
  histogram p -> (0 < total p)%Z -> to_distribution p = map Fin (probs p).
Proof.
  intros Hp Hpos. unfold to_distribution, probs.
  rewrite np_sum_total by assumption. rewrite map_map.
  apply map_ext. intros c. unfold F.div, F.of_int.
  destruct (Req_dec_T (IZR (total p)) 0) as [E|_]; [|reflexivity].
  apply eq_IZR in E. lia.
Qed.

Lemma Rsum_scaled (p : list Z) (s : R) :
  Rsum (map (fun c => IZR c / s) p) = IZR (total p) / s.
Proof.
  induction p as [|c p IH]; cbn [map].
  - change (Rsum []) with 0. change (total []) with 0%Z.
    unfold Rdiv. ring.
  - change (Rsum (?a :: ?l)) with (a + Rsum l).
    rewrite IH, total_cons, plus_IZR. unfold Rdiv. ring.
Qed.

Lemma Rsum_probs (p : list Z) : (0 < total p)%Z -> Rsum (probs p) = 1.
Proof.
  intros Hpos. unfold probs. rewrite Rsum_scaled.
  apply Rdiv_diag. apply not_0_IZR. lia.
Qed.

Lemma probs_nonneg (p : list Z) :
  histogram p -> (0 < total p)%Z -> Forall (fun x => 0 <= x) (probs p).
Proof.
  intros [Hnn _] Hpos. unfold probs. apply Forall_map.
  eapply Forall_impl; [|exact Hnn]. cbn. intros c Hc.
  assert (0 <= IZR c) by now apply IZR_le.
  assert (0 < IZR (total p)) by (apply IZR_lt; lia).
  unfold Rdiv. apply Rmult_le_pos; [assumption|].
  left. now apply Rinv_0_lt_compat.
Qed.

Lemma normalize_Fin (P : list R) :
  Rsum P = 1 -> normalize (map Fin P) = map Fin P.
Proof.
  intros HS. unfold normalize. rewrite F_sum_Fin, HS, map_map.
  apply map_ext. intros v. unfold F.one, F.mul, F.div.
  destruct (Req_dec_T 1 0) as [E|_]; [lra|]. f_equal. field.
Qed.

Lemma np_add_Fin (P Q : list R) :
  length P = length Q ->
  np_add (map Fin P) (map Fin Q)
  = Ok (map Fin (map (fun xy => fst xy + snd xy) (combine P Q))).
Proof.
  intros Hlen. unfold np_add. rewrite !length_map, Hlen, Nat.eqb_refl.
  f_equal. clear Hlen. revert Q.
  induction P as [|x P IH]; intros [|y Q]; cbn [map combine];
    try reflexivity.
  cbn [fst snd F.add]. now rewrite IH.
Qed.

Lemma mixture_Fin (P Q : list R) :
  map (F.mul F.half)
      (map Fin (map (fun xy => fst xy + snd xy) (combine P Q)))
  = map Fin (mixture P Q).
Proof. unfold mixture. rewrite !map_map. reflexivity. Qed.

(** Where [rel_entr] stays finite it is the Kullback-Leibler term. *)
Lemma rel_entr_Fin (x y : R) :
  0 <= x -> 0 <= y -> (0 < x -> 0 < y) ->
  rel_entr (Fin x) (Fin y) = Fin (kl_term x y).
Proof.
  intros Hx Hy Hpos. unfold rel_entr, kl_term, F.gt0, F.ge0, F.eq0, F.gt0.
  destruct (Req_dec_T x 0) as [->|Hne].
  - destruct (Rlt_dec 0 0) as [?|_]; [lra|]. cbn [andb].
    destruct (Rlt_dec 0 y), (Req_dec_T y 0); cbn; try reflexivity; lra.
  - assert (Hx' : 0 < x) by lra. specialize (Hpos Hx').
    destruct (Rlt_dec 0 x) as [_|?]; [|lra].
    destruct (Rlt_dec 0 y) as [_|?]; [|lra]. cbn [andb].
    unfold F.div. destruct (Req_dec_T y 0) as [?|_]; [lra|].
    unfold F.log.
    destruct (Rlt_dec 0 (x / y)) as [_|Hn]; [reflexivity|].
    exfalso. apply Hn. now apply Rdiv_lt_0_compat.
Qed.

Lemma rel_entr_map (l : list (R * R)) :
  Forall kl_ready l ->
  map (fun pq => rel_entr (fst pq) (snd pq))
      (map (fun xy => (Fin (fst xy), Fin (snd xy))) l)
  = map Fin (map (fun xy => kl_term (fst xy) (snd xy)) l).
Proof.
  induction 1 as [|[x y] l (Hx & Hy & Hpos) Hl IH]; cbn [map fst snd] in *.
  - reflexivity.
  - rewrite IH, rel_entr_Fin by assumption. reflexivity.
Qed.

Lemma combine_map_Fin (P Q : list R) :
  combine (map Fin P) (map Fin Q)
  = map (fun xy => (Fin (fst xy), Fin (snd xy))) (combine P Q).
Proof.
  revert Q. induction P as [|x P IH]; intros [|y Q]; cbn [map combine];
    try reflexivity.
  now rewrite IH.
Qed.

(** [entropy] of two probability vectors is their KL divergence. *)
Lemma entropy_KL (P M : list R) :
  length P = length M -> Rsum P = 1 -> Rsum M = 1 ->
  Forall kl_ready (combine P M) ->
  entropy (map Fin P) (map Fin M) = Ok (Fin (KL P M)).
Proof.
  intros Hlen SP SM Hready. unfold entropy.
  rewrite !normalize_Fin by assumption.
  rewrite !length_map, Hlen, Nat.eqb_refl. cbn [negb].
  rewrite combine_map_Fin, rel_entr_map, F_sum_Fin by assumption.
  reflexivity.
Qed.

Lemma mixture_length (P Q : list R) :
  length P = length Q -> length (mixture P Q) = length P.
Proof.
  intros Hlen. unfold mixture. rewrite length_map, length_combine. lia.
Qed.

Lemma kl_ready_mixture (P Q : list R) :
  length P = length Q ->
  Forall (fun x => 0 <= x) P -> Forall (fun y => 0 <= y) Q ->
  Forall kl_ready (combine P (mixture P Q)).
Proof.
  unfold mixture. intros Hlen HP. revert Q Hlen.
  induction HP as [|x P Hx HP IH]; intros [|y Q] Hlen HQ;
    try discriminate; cbn [combine map fst snd].
  - constructor.
  - injection Hlen as Hlen. inversion HQ as [|y' Q' Hy HQ']; subst.
    constructor; [|now apply IH].
    unfold kl_ready. cbn [fst snd]. repeat split; lra.
Qed.

(** The divergence of two non-degenerate histograms in the exact
    arithmetic of module [F]: the reference formula. *)
Lemma jsd_JS (p q : list Z) :
  histogram p -> histogram q -> length p = length q ->
  (0 < total p)%Z -> (0 < total q)%Z ->
  jsd p q = Ok (Fin (JS (probs p) (probs q))).
Proof.
  intros Hp Hq Hlen Tp Tq. unfold jsd.
  rewrite !to_distribution_probs by assumption.
  assert (HL : length (probs p) = length (probs q))
    by (rewrite !probs_length; exact Hlen).
  pose proof (probs_nonneg Hp Tp) as Np.
  pose proof (probs_nonneg Hq Tq) as Nq.
  pose proof (Rsum_probs p Tp) as Sp.
  pose proof (Rsum_probs q Tq) as Sq.
  rewrite np_add_Fin by assumption. cbn [bind].
  rewrite mixture_Fin.
  assert (SM : Rsum (mixture (probs p) (probs q)) = 1)
    by (rewrite Rsum_mixture, Sp, Sq by assumption; lra).
  rewrite entropy_KL;
    [ | now rewrite mixture_length | assumption | assumption
      | now apply kl_ready_mixture ].
  cbn [bind].
  rewrite entropy_KL;
    [ | rewrite mixture_length by assumption; now symmetry
      | assumption | assumption
      | rewrite mixture_comm; apply kl_ready_mixture;
        [now symmetry | assumption | assumption] ].
  cbn [bind]. unfold JS, F.half. cbn [F.add F.mul]. f_equal. f_equal. ring.
Qed.

End Distributions.

(** ** The divergence *)

Lemma histogram_13 : histogram [1; 3].
Proof. split; [repeat constructor; lia | cbn; pow_consts; lia]. Qed.

Lemma histogram_22 : histogram [2; 2].
Proof. split; [repeat constructor; lia | cbn; pow_consts; lia]. Qed.

(** C6.  For two histograms of one length, each with a positive sum, the
    divergence does not depend on the order of its arguments, and it is a
    finite number. *)
Theorem jsd_symmetric (p q : list Z) :
  histogram p -> histogram q -> length p = length q ->
  0 < total p -> 0 < total q ->
  jsd p q = jsd q p /\ exists d : R, jsd p q = Ok (Fin d).
Proof.
  intros Hp Hq Hlen Tp Tq.
  rewrite (jsd_JS Hp Hq Hlen Tp Tq), (jsd_JS Hq Hp (eq_sym Hlen) Tq Tp).
  split; [now rewrite JS_comm | eexists; reflexivity].
Qed.

Lemma jsd_symmetric_witness :
  (histogram [1; 3] /\ histogram [2; 2] /\
   length [1; 3] = length [2; 2] /\ 0 < total [1; 3] /\ 0 < total [2; 2]) /\
  (jsd [1; 3] [2; 2] = jsd [2; 2] [1; 3] /\
   exists d : R, jsd [1; 3] [2; 2] = Ok (Fin d)).
Proof.
  split.
  - repeat split; try apply histogram_13; try apply histogram_22;
      reflexivity.
  - apply (@jsd_symmetric [1; 3] [2; 2]);
      try apply histogram_13; try apply histogram_22; reflexivity.
Defined.

(** ** Degenerate histograms *)

Lemma fold_add_NaN (l : list float) : fold_left F.add l NaN = NaN.
Proof. induction l as [|x l IH]; [reflexivity | exact IH]. Qed.

Lemma F_sum_NaN (n : nat) : F.sum (repeat NaN (S n)) = NaN.
Proof. unfold F.sum. cbn [repeat fold_left F.add]. apply fold_add_NaN. Qed.

Lemma F_div_NaN_r (a : float) : F.div a NaN = NaN.
Proof. now destruct a. Qed.

Lemma F_add_NaN_r (a : float) : F.add a NaN = NaN.
Proof. now destruct a. Qed.

Lemma F_mul_NaN_r (a : float) : F.mul a NaN = NaN.
Proof. now destruct a. Qed.

Lemma rel_entr_NaN_r (x : float) : rel_entr x NaN = NaN.
Proof. now destruct x. Qed.

Lemma map_repeat_const {A B : Type} (f : A -> B) (a : A) (b : B) (n : nat) :
  f a = b -> map f (repeat a n) = repeat b n.
Proof.
  intros Hf. induction n as [|n IH]; cbn [repeat map]; [reflexivity|].
  now rewrite Hf, IH.
Qed.

Lemma normalize_NaN (n : nat) : normalize (repeat NaN n) = repeat NaN n.
Proof. unfold normalize. now apply map_repeat_const. Qed.

Lemma rel_entr_against_NaN (x : list float) :
  map (fun pq => rel_entr (fst pq) (snd pq))
      (combine x (repeat NaN (length x)))
  = repeat NaN (length x).
Proof.
  induction x as [|a x IH]; cbn [length repeat combine map fst snd].
  - reflexivity.
  - now rewrite IH, rel_entr_NaN_r.
Qed.

Lemma normalize_length (x : list float) : length (normalize x) = length x.
Proof. unfold normalize. apply length_map. Qed.

(** Against an all-[nan] vector [entropy] returns [nan]. *)
Lemma entropy_NaN (x : list float) (n : nat) :
  length x = n -> (0 < n)%nat -> entropy x (repeat NaN n) = Ok NaN.
Proof.
  intros Hlen Hn. subst n. unfold entropy.
  rewrite repeat_length, normalize_length, Nat.eqb_refl. cbn [negb].
  rewrite normalize_NaN, <- (normalize_length x), rel_entr_against_NaN.
  rewrite normalize_length.
  destruct (length x) as [|n]; [lia|]. now rewrite F_sum_NaN.
Qed.

Lemma all_zero (h : list Z) :
  Forall (fun c => 0 <= c) h -> total h = 0 -> h = repeat 0 (length h).
Proof.
  induction 1 as [|c h Hc Hh IH]; intros Htot; cbn [length repeat].
  - reflexivity.
  - rewrite total_cons in Htot. pose proof (total_nonneg Hh).
    assert (c = 0) by lia. subst c. f_equal. apply IH. lia.
Qed.

(** A histogram without a single count normalises to [nan] everywhere. *)
Lemma to_distribution_NaN (h : list Z) :
  histogram h -> total h = 0 -> to_distribution h = repeat NaN (length h).
Proof.
  intros Hh Htot. unfold to_distribution.
  rewrite (np_sum_total Hh), Htot.
  rewrite (all_zero (proj1 Hh) Htot) at 1.
  apply map_repeat_const. unfold F.div, F.of_int.
  destruct (Req_dec_T 0 0) as [_|Hn]; [reflexivity | now elim Hn].
Qed.

Lemma to_distribution_length (h : list Z) :
  length (to_distribution h) = length h.
Proof. unfold to_distribution. apply length_map. Qed.

Lemma mix_NaN_l (y : list float) :
  map (F.mul F.half)
      (map (fun ab => F.add (fst ab) (snd ab))
           (combine (repeat NaN (length y)) y))
  = repeat NaN (length y).
Proof.
  induction y as [|b y IH]; cbn [length repeat combine map fst snd].
  - reflexivity.
  - now rewrite IH.
Qed.

Lemma mix_NaN_r (x : list float) :
  map (F.mul F.half)
      (map (fun ab => F.add (fst ab) (snd ab))
           (combine x (repeat NaN (length x))))
  = repeat NaN (length x).
Proof.
  induction x as [|a x IH]; cbn [length repeat combine map fst snd].
  - reflexivity.
  - now rewrite IH, F_add_NaN_r, F_mul_NaN_r.
Qed.

(** Once the mixture is [nan] everywhere, so is the divergence. *)
Lemma jsd_of_NaN_mixture (x y : list float) :
  length x = length y -> (0 < length x)%nat ->
  map (F.mul F.half)
      (map (fun ab => F.add (fst ab) (snd ab)) (combine x y))
  = repeat NaN (length x) ->
  (s <- np_add x y ;;
   let m := map (F.mul F.half) s in
   e1 <- entropy x m ;;
   e2 <- entropy y m ;;
   Ok (F.mul F.half (F.add e1 e2))) = Ok NaN.
Proof.
  intros Hlen Hpos Hm. unfold np_add. rewrite Hlen, Nat.eqb_refl.
  cbn [bind]. rewrite Hm.
  rewrite (entropy_NaN x eq_refl Hpos).
  rewrite Hlen in Hpos |- *. rewrite (entropy_NaN y eq_refl Hpos).
  reflexivity.
Qed.

(** The divergence of a histogram without counts is [nan], not an error. *)
Lemma jsd_NaN (p q : list Z) :
  histogram p -> histogram q -> length p = length q ->
  (0 < length p)%nat -> total p = 0 \/ total q = 0 ->
  jsd p q = Ok NaN.
Proof.
  intros Hp Hq Hlen Hpos Hzero. unfold jsd.
  apply jsd_of_NaN_mixture; rewrite ?to_distribution_length;
    try assumption.
  destruct Hzero as [Hz|Hz].
  - rewrite (to_distribution_NaN Hp Hz), Hlen.
    rewrite <- (to_distribution_length q). apply mix_NaN_l.
  - rewrite (to_distribution_NaN Hq Hz), <- Hlen.
    rewrite <- (to_distribution_length p). apply mix_NaN_r.
Qed.

Lemma histogram_0 : histogram [0].
Proof. split; [repeat constructor; lia | cbn; pow_consts; lia]. Qed.

Lemma histogram_1 : histogram [1].
Proof. split; [repeat constructor; lia | cbn; pow_consts; lia]. Qed.

(** C2, as the code behaves.  When one of two histograms of the same
    non-zero length sums to zero, [jsd] raises nothing: the division by
    the zero sum yields [nan], and [nan] is the value returned. *)
Theorem jsd_degenerate (p q : list Z) :
  histogram p -> histogram q -> length p = length q ->
  (0 < length p)%nat -> total p = 0 \/ total q = 0 ->
  jsd p q = Ok NaN.
Proof. apply jsd_NaN. Qed.

Lemma jsd_degenerate_witness :
  (histogram [0] /\ histogram [1] /\ length [0] = length [1] /\
   (0 < length [0])%nat /\ (total [0] = 0 \/ total [1] = 0)) /\
  jsd [0] [1] = Ok NaN.
Proof.
  split.
  - repeat split; try apply histogram_0; try apply histogram_1.
    + cbn; lia.
    + now left.
  - apply (@jsd_degenerate [0] [1]);
      try apply histogram_0; try apply histogram_1;
      try reflexivity; [cbn; lia | now left].
Defined.

(** C2 as stated fails: the histogram [[0]] sums to zero, and its
    divergence from [[1]] is a returned value, not a raised error. *)
Lemma jsd_zero_sum_returns :
  total [0] = 0 /\ jsd [0] [1] = Ok NaN /\
  forall e, jsd [0] [1] <> Raise e.
Proof.
  assert (E : jsd [0] [1] = Ok NaN).
  { apply jsd_NaN; try apply histogram_0; try apply histogram_1;
      try reflexivity; [cbn; lia | now left]. }
  split; [reflexivity|]. split; [exact E|].
  intros e. rewrite E. discriminate.
Qed.

(** ** Scores of fewer than two candidates *)

Lemma entropy_returns (x y : list float) :
  length x = length y -> exists e, entropy x y = Ok e.
Proof.
  intros Hlen. unfold entropy.
  rewrite normalize_length, Hlen, Nat.eqb_refl. cbn [negb].
  eexists. reflexivity.
Qed.

(** Arrays of one length always have a divergence, finite or not. *)
Lemma jsd_returns (p q : list Z) :
  length p = length q -> exists d, jsd p q = Ok d.
Proof.
  intros Hlen. unfold jsd, np_add.
  rewrite !to_distribution_length, Hlen, Nat.eqb_refl. cbn [bind].
  set (m := map (F.mul F.half) _).
  assert (Hm : length m = length q).
  { unfold m. rewrite !length_map, length_combine.
    rewrite !to_distribution_length. lia. }
  destruct (@entropy_returns (to_distribution p) m) as [e1 E1];
    [rewrite to_distribution_length; congruence|].
  destruct (@entropy_returns (to_distribution q) m) as [e2 E2];
    [rewrite to_distribution_length; congruence|].
  rewrite E1. cbn [bind]. rewrite E2. cbn [bind].
  eexists. reflexivity.
Qed.

(** The mean of no value at all is [0.0 / 0], that is [nan]. *)
Lemma mean_nil : F.mean [] = NaN.
Proof.
  unfold F.mean, F.sum, F.of_nat, F.div. cbn [fold_left length INR].
  destruct (Req_dec_T 0 0) as [_|Hn]; [reflexivity | now elim Hn].
Qed.

(** Without candidates [pdist] is handed a list that is not a 2-D array. *)
Lemma anodi_no_candidate (img0 : image) (k : nat) :
  exists e, anodi img0 [] k = Raise e.
Proof.
  unfold anodi. destruct (multipoint_histogram img0 k) as [h0|e]; cbn.
  - now exists ValueError.
  - now exists e.
Qed.

(** With one candidate there is no pair to average over. *)
Lemma anodi_one_candidate (h0 w0 h1 w1 k : nat) (img0 img : image) :
  rect h0 w0 img0 -> binary img0 -> rect h1 w1 img -> binary img ->
  (1 <= k <= 7)%nat ->
  (k <= h0)%nat -> (k <= w0)%nat -> (k <= h1)%nat -> (k <= w1)%nat ->
  exists inconsistency, anodi img0 [img] k = Ok (inconsistency, NaN).
Proof.
  intros R0 B0 R1 B1 Hk Hh0 Hw0 Hh1 Hw1.
  destruct (@multipoint_histogram_ok h0 w0 k img0)
    as (hist0 & E0 & L0 & _); try assumption; try lia.
  destruct (@multipoint_histogram_ok h1 w1 k img)
    as (hist1 & E1 & L1 & _); try assumption; try lia.
  destruct (@jsd_returns hist0 hist1) as [d Ed]; [lia|].
  unfold anodi. rewrite E0. cbn [bind mapM]. rewrite E1. cbn [bind mapM].
  rewrite Ed. cbn [bind pdist forallb pairs map app mapM].
  rewrite Nat.eqb_refl. cbn [andb bind]. rewrite mean_nil.
  eexists. reflexivity.
Qed.

(** C3, as the code behaves.  Without any candidate [anodi] raises (the
    [ValueError] of [pdist], or the error of the reference histogram)
    and returns no pair, whatever the reference image and the patch size.
    With a single candidate nothing is raised for the lack of pairs: for
    binary images and a patch size [1 <= k <= 7] that fits them, [anodi]
    returns a pair whose diversity is [nan]. *)
Theorem anodi_few_candidates (k : nat) (img0 : image) :
  (exists e, anodi img0 [] k = Raise e) /\
  (forall (h0 w0 h1 w1 : nat) (img : image),
      rect h0 w0 img0 -> binary img0 -> rect h1 w1 img -> binary img ->
      (1 <= k <= 7)%nat ->
      (k <= h0)%nat -> (k <= w0)%nat -> (k <= h1)%nat -> (k <= w1)%nat ->
      exists inconsistency, anodi img0 [img] k = Ok (inconsistency, NaN)).
Proof.
  split.
  - apply anodi_no_candidate.
  - intros h0 w0 h1 w1 img R0 B0 R1 B1 Hk Hh0 Hw0 Hh1 Hw1.
    now apply (@anodi_one_candidate h0 w0 h1 w1).
Qed.

Lemma anodi_few_candidates_witness :
  (exists e, anodi sample_image [] 2 = Raise e) /\
  (exists inconsistency,
      anodi sample_image [sample_image] 2 = Ok (inconsistency, NaN)).
Proof.
  destruct (anodi_few_candidates 2 sample_image) as [Hnone Hone].
  split; [exact Hnone|].
  apply (Hone 3%nat 3%nat 3%nat 3%nat sample_image);
    try apply sample_image_rect; try apply sample_image_binary; lia.
Defined.

(** C3 as stated fails: with the single candidate [sample_image] the call
    returns a pair. *)
Lemma anodi_singleton_returns :
  length [sample_image] = 1%nat /\
  (exists inconsistency,
      anodi sample_image [sample_image] 2 = Ok (inconsistency, NaN)) /\
  forall e, anodi sample_image [sample_image] 2 <> Raise e.
Proof.
  destruct (@anodi_one_candidate 3 3 3 3 2 sample_image sample_image)
    as [inc E];
    try apply sample_image_rect; try apply sample_image_binary; try lia.
  split; [reflexivity|]. split; [now exists inc|].
  intros e. rewrite E. discriminate.
Qed.

(** * Further properties of the divergence

    First of the reference formula [JS], then of [jsd]. *)

Section MoreDivergence.

Local Open Scope R_scope.

Lemma Rsum_cons (x : R) (l : list R) : Rsum (x :: l) = x + Rsum l.
Proof. reflexivity. Qed.

Lemma kl_term_self (x : R) : kl_term x x = 0.
Proof.
  unfold kl_term. destruct (Req_dec_T x 0) as [|Hne]; [reflexivity|].
  replace (x / x) with 1 by (field; assumption). rewrite ln_1. ring.
Qed.

Lemma mixture_self (P : list R) : mixture P P = P.
Proof.
  unfold mixture. induction P as [|x P IH]; cbn [combine map fst snd].
  - reflexivity.
  - rewrite IH. f_equal. field.
Qed.

Lemma KL_self (P : list R) : KL P P = 0.
Proof.
  unfold KL. induction P as [|x P IH]; cbn [combine map fst snd].
  - reflexivity.
  - rewrite Rsum_cons, IH, kl_term_self. ring.
Qed.

Lemma JS_self (P : list R) : JS P P = 0.
Proof. unfold JS. rewrite mixture_self, KL_self. ring. Qed.

(** The lower bound [x - m <= kl_term x m] is attained only at [x = m]. *)
Lemma kl_term_gap_zero (x m : R) :
  0 <= x -> 0 <= m -> (0 < x -> 0 < m) -> kl_term x m = x - m -> x = m.
Proof.
  intros Hx Hm Hpos. unfold kl_term.
  destruct (Req_dec_T x 0) as [->|Hne]; [lra|].
  assert (Hx' : 0 < x) by lra. specialize (Hpos Hx').
  assert (Hq : 0 < m / x) by (apply Rdiv_lt_0_compat; assumption).
  replace (x / m) with (/ (m / x)) by (field; lra).
  rewrite ln_Rinv by assumption. intros E.
  destruct (Req_dec_T (ln (m / x)) 0) as [Z0|NZ].
  - pose proof (exp_ln _ Hq) as He. rewrite Z0, exp_0 in He.
    assert (m = (m / x) * x) by (field; lra). rewrite <- He in H. lra.
  - exfalso. pose proof (exp_ineq1 (ln (m / x)) NZ) as Hs.
    rewrite exp_ln in Hs by assumption.
    assert (x * (1 + ln (m / x)) < x * (m / x))
      by (apply Rmult_lt_compat_l; assumption).
    replace (x * (m / x)) with m in H by (field; lra). lra.
Qed.

(** Both terms against the mixture vanish only where the two agree. *)
Lemma kl_pair_zero (x y : R) :
  0 <= x -> 0 <= y ->
  kl_term x (/ 2 * (x + y)) + kl_term y (/ 2 * (x + y)) = 0 -> x = y.
Proof.
  intros Hx Hy E.
  pose proof (kl_term_mix_lower Hx Hy) as Lx.
  pose proof (kl_term_mix_lower Hy Hx) as Ly.
  replace (/ 2 * (y + x)) with (/ 2 * (x + y)) in Ly by ring.
  assert (Ex : kl_term x (/ 2 * (x + y)) = x - / 2 * (x + y)) by lra.
  apply kl_term_gap_zero in Ex; lra.
Qed.

Lemma kl_pair_nonneg (x y : R) :
  0 <= x -> 0 <= y ->
  0 <= kl_term x (/ 2 * (x + y)) + kl_term y (/ 2 * (x + y)).
Proof.
  intros Hx Hy.
  pose proof (kl_term_mix_lower Hx Hy) as Lx.
  pose proof (kl_term_mix_lower Hy Hx) as Ly.
  replace (/ 2 * (y + x)) with (/ 2 * (x + y)) in Ly by ring. lra.
Qed.

Lemma KL_pair_zero (P Q : list R) :
  length P = length Q ->
  Forall (fun x => 0 <= x) P -> Forall (fun y => 0 <= y) Q ->
  0 <= KL P (mixture P Q) + KL Q (mixture P Q) /\
  (KL P (mixture P Q) + KL Q (mixture P Q) = 0 -> P = Q).
Proof.
  unfold KL, mixture. intros Hlen HP. revert Q Hlen.
  induction HP as [|x P Hx HP IH]; intros [|y Q] Hlen HQ;
    try discriminate; cbn [combine map fst snd].
  - split; [cbn; lra | reflexivity].
  - injection Hlen as Hlen. inversion HQ as [|y' Q' Hy HQ']; subst.
    destruct (IH _ Hlen HQ') as [Hnn Hz].
    rewrite !Rsum_cons.
    pose proof (kl_pair_nonneg Hx Hy) as Hp.
    split; [lra|]. intros E.
    assert (x = y) by (apply kl_pair_zero; lra).
    f_equal; [assumption | apply Hz; lra].
Qed.

Lemma JS_zero (P Q : list R) :
  length P = length Q ->
  Forall (fun x => 0 <= x) P -> Forall (fun y => 0 <= y) Q ->
  JS P Q = 0 -> P = Q.
Proof.
  intros Hlen HP HQ E. unfold JS in E.
  destruct (KL_pair_zero Hlen HP HQ) as [_ Hz]. apply Hz. lra.
Qed.

(** Where the supports are disjoint every term reaches [x * ln 2]. *)
Lemma kl_term_disjoint (x y : R) :
  x = 0 \/ y = 0 -> kl_term x (/ 2 * (x + y)) = x * ln 2.
Proof.
  unfold kl_term. destruct (Req_dec_T x 0) as [->|Hne]; [intros; ring|].
  intros [? | ->]; [contradiction|].
  replace (x / (/ 2 * (x + 0))) with 2 by (field; assumption). reflexivity.
Qed.

Lemma KL_disjoint (P Q : list R) :
  Forall (fun xy => fst xy = 0 \/ snd xy = 0) (combine P Q) ->
  KL P (mixture P Q) = Rsum (map fst (combine P Q)) * ln 2 /\
  KL Q (mixture P Q) = Rsum (map snd (combine P Q)) * ln 2.
Proof.
  unfold KL, mixture. revert Q.
  induction P as [|x P IH]; intros [|y Q] HD; cbn [combine map fst snd];
    try (split; cbn; ring).
  inversion HD as [|xy l Hxy Hl]; subst. cbn [fst snd] in Hxy.
  destruct (IH _ Hl) as [EP EQ]. rewrite !Rsum_cons, EP, EQ.
  rewrite (kl_term_disjoint Hxy).
  replace (/ 2 * (x + y)) with (/ 2 * (y + x)) by ring.
  assert (Hyx : y = 0 \/ x = 0) by tauto.
  rewrite (kl_term_disjoint Hyx).
  split; ring.
Qed.

Lemma map_fst_combine {A B : Type} (l : list A) (l' : list B) :
  length l = length l' -> map fst (combine l l') = l.
Proof.
  revert l'. induction l as [|a l IH]; intros [|b l'] Hlen;
    try discriminate; cbn [combine map fst]; [reflexivity|].
  injection Hlen as Hlen. now rewrite IH.
Qed.

Lemma map_snd_combine {A B : Type} (l : list A) (l' : list B) :
  length l = length l' -> map snd (combine l l') = l'.
Proof.
  revert l'. induction l as [|a l IH]; intros [|b l'] Hlen;
    try discriminate; cbn [combine map snd]; [reflexivity|].
  injection Hlen as Hlen. now rewrite IH.
Qed.

Lemma JS_disjoint (P Q : list R) :
  length P = length Q -> Rsum P = 1 -> Rsum Q = 1 ->
  Forall (fun xy => fst xy = 0 \/ snd xy = 0) (combine P Q) ->
  JS P Q = ln 2.
Proof.
  intros Hlen SP SQ HD. unfold JS.
  destruct (KL_disjoint P Q HD) as [-> ->].
  rewrite map_fst_combine, map_snd_combine, SP, SQ by assumption. field.
Qed.

End MoreDivergence.

(** X1.  A histogram with a positive sum is at divergence 0 from
    itself. *)
Theorem jsd_self (h : list Z) :
  histogram h -> 0 < total h -> jsd h h = Ok (Fin 0).
Proof.
  intros Hh Th. rewrite (jsd_JS Hh Hh eq_refl Th Th). now rewrite JS_self.
Qed.

Lemma jsd_self_witness :
  (histogram [1; 3] /\ 0 < total [1; 3]) /\ jsd [1; 3] [1; 3] = Ok (Fin 0).
Proof.
  split; [split; [apply histogram_13 | reflexivity]|].
  apply (@jsd_self [1; 3]); [apply histogram_13 | reflexivity].
Defined.

Lemma entropy_mismatch (x y : list float) :
  length x <> length y -> entropy x y = Raise ValueError.
Proof.
  intros Hne. unfold entropy. rewrite normalize_length.
  destruct (Nat.eqb_spec (length y) (length x)); [congruence | reflexivity].
Qed.

(** X5.  Arrays of different lengths have no divergence: [jsd] raises
    [ValueError], from the broadcast of [p + q] or, when one of them has
    a single entry, from [entropy]. *)
Theorem jsd_length_mismatch (p q : list Z) :
  length p <> length q -> jsd p q = Raise ValueError.
Proof.
  intros Hne. unfold jsd, np_add.
  rewrite <- (to_distribution_length p), <- (to_distribution_length q) in Hne.
  generalize dependent (to_distribution q).
  generalize (to_distribution p). clear p q. intros x y Hne.
  destruct (Nat.eqb_spec (length x) (length y)) as [|_]; [contradiction|].
  destruct x as [|a [|a' x]], y as [|b [|b' y]]; cbn [bind];
    try reflexivity; try (exfalso; apply Hne; reflexivity).
  - destruct (@entropy_returns (a :: a' :: x)
                (map (F.mul F.half) (map (fun v => F.add v b) (a :: a' :: x))))
      as [e1 E1]; [now rewrite !length_map|].
    rewrite E1. cbn [bind].
    rewrite entropy_mismatch; [reflexivity|].
    cbn [length map]. rewrite !length_map. lia.
Qed.

Lemma jsd_length_mismatch_witness :
  length [1; 3] <> length [1; 2; 1] /\ jsd [1; 3] [1; 2; 1] = Raise ValueError.
Proof.
  split; [cbn; lia|].
  apply (@jsd_length_mismatch [1; 3] [1; 2; 1]). cbn; lia.
Defined.

(** * Further properties of the histogram builder *)

(** The histogram in closed form: bin [i] counts the windows whose
    identifier is [i]. *)
Lemma multipoint_histogram_eq (h w k : nat) (img : image) :
  rect h w img -> binary img ->
  (1 <= k <= h)%nat -> (k <= w)%nat -> (k <= 7)%nat ->
  multipoint_histogram img k
  = Ok (map (fun i => count (map encode (windows img k)) (Z.of_nat i))
            (seq 0 (Z.to_nat (2 ^ Z.of_nat (k * k))))).
Proof.
  intros Hrect Hbin Hk Hw Hk7.
  pose proof (windows_patches Hrect Hbin Hk Hw) as Hps.
  pose proof (window_ids_bound Hk7 Hps) as Hids.
  assert (Hpow : 0 < 2 ^ Z.of_nat (k * k) <= Int64.max_signed).
  { split; [apply Z.pow_pos_nonneg; lia|].
    assert (2 ^ Z.of_nat (k * k) <= 2 ^ 49) by (apply Z.pow_le_mono_r; nia).
    pow_consts. change (2 ^ 49) with 562949953421312 in *. lia. }
  unfold multipoint_histogram.
  rewrite (extract_patches_2d_ok Hrect Hk Hw). cbn [bind].
  rewrite pow_square, bincount_ok by (assumption || lia).
  unfold bin2dec_rows. rewrite map_map. reflexivity.
Qed.

(** X6.  From patch size 8 on the histogram builder always fails, even
    on an image the patch fits: [2^(k*k)] is no valid [minlength] and
    [np.bincount] raises [OverflowError]. *)
Theorem multipoint_histogram_large_patch (h w k : nat) (img : image) :
  rect h w img -> (8 <= k <= h)%nat -> (k <= w)%nat ->
  multipoint_histogram img k = Raise OverflowError.
Proof.
  intros Hrect Hk Hw. unfold multipoint_histogram.
  rewrite (@extract_patches_2d_ok h w k img) by (assumption || lia).
  cbn [bind]. unfold bincount. rewrite pow_square.
  assert (2 ^ 64 <= 2 ^ Z.of_nat (k * k)) by (apply Z.pow_le_mono_r; nia).
  destruct (Z.ltb_spec Int64.max_signed (2 ^ Z.of_nat (k * k)));
    [reflexivity | pow_consts; lia].
Qed.

Lemma multipoint_histogram_large_patch_witness :
  (rect 8 8 (zeros 8 8) /\ (8 <= 8 <= 8)%nat /\ (8 <= 8)%nat) /\
  multipoint_histogram (zeros 8 8) 8 = Raise OverflowError.
Proof.
  assert (R : rect 8 8 (zeros 8 8)) by solve_rect.
  split; [repeat split; try lia; apply R|].
  apply (@multipoint_histogram_large_patch 8 8 8 (zeros 8 8)); [exact R|lia|lia].
Defined.

(** X7.  Entry [id] of the histogram of a binary image is the number of
    its [k] x [k] windows whose encoding is [id]. *)
Theorem multipoint_histogram_entry (h w k : nat) (img : image) (id : Z) :
  rect h w img -> binary img ->
  (1 <= k <= h)%nat -> (k <= w)%nat -> (k <= 7)%nat ->
  0 <= id < 2 ^ Z.of_nat (k * k) ->
  exists hist,
    multipoint_histogram img k = Ok hist /\
    nth (Z.to_nat id) hist 0 = count (map encode (windows img k)) id.
Proof.
  intros Hrect Hbin Hk Hw Hk7 Hid.
  eexists. split; [now apply (@multipoint_histogram_eq h w k img)|].
  set (f := fun i => count (map encode (windows img k)) (Z.of_nat i)).
  assert (Hlt : (Z.to_nat id < Z.to_nat (2 ^ Z.of_nat (k * k)))%nat) by lia.
  rewrite (nth_indep _ 0 (f O)) by now rewrite length_map, length_seq.
  rewrite map_nth, seq_nth by assumption.
  unfold f. cbn [Nat.add]. now rewrite Z2Nat.id by lia.
Qed.

Lemma multipoint_histogram_entry_witness :
  (rect 3 3 sample_image /\ binary sample_image /\
   (1 <= 2 <= 3)%nat /\ (2 <= 3)%nat /\ (2 <= 7)%nat /\
   0 <= 6 < 2 ^ Z.of_nat (2 * 2)) /\
  exists hist,
    multipoint_histogram sample_image 2 = Ok hist /\
    nth (Z.to_nat 6) hist 0 = count (map encode (windows sample_image 2)) 6.
Proof.
  split.
  - repeat split; try lia; try apply sample_image_rect;
      try apply sample_image_binary; cbn; lia.
  - apply (@multipoint_histogram_entry 3 3 2 sample_image 6);
      try apply sample_image_rect; try apply sample_image_binary;
      try lia; cbn; lia.
Defined.

(** The histogram of a valid image is a non-degenerate count array. *)
Lemma multipoint_histogram_valid (k : nat) (img : image) :
  (1 <= k <= 7)%nat -> valid_image k img ->
  exists hist,
    multipoint_histogram img k = Ok hist /\
    histogram hist /\ 0 < total hist /\
    Z.of_nat (length hist) = 2 ^ Z.of_nat (k * k).
Proof.
  intros Hk (h & w & Hrect & Hbin & Hh & Hw & Hfit).
  destruct (@multipoint_histogram_ok h w k img)
    as (hist & E & Hlen & Htot & Hnn); try assumption; try lia.
  exists hist. split; [assumption|].
  split; [split; [assumption | lia]|].
  split; [|assumption]. rewrite Htot. nia.
Qed.

Lemma sample_image_valid : valid_image 2 sample_image.
Proof.
  exists 3%nat, 3%nat.
  split; [apply sample_image_rect|]. split; [apply sample_image_binary|].
  split; [lia|]. split; [lia|]. cbn. pow_consts. lia.
Qed.

(** X8.  The distance between two images is defined: for two valid
    images (possibly of different sizes) and a patch size [1 <= k <= 7],
    both histograms are returned, they have one length and positive
    sums, and [jsd] returns a finite number for them, neither an error
    nor [nan]. *)
Theorem image_distance_defined (k : nat) (a b : image) :
  (1 <= k <= 7)%nat -> valid_image k a -> valid_image k b ->
  exists (ha hb : list Z) (d : R),
    multipoint_histogram a k = Ok ha /\
    multipoint_histogram b k = Ok hb /\
    length ha = length hb /\ 0 < total ha /\ 0 < total hb /\
    jsd ha hb = Ok (Fin d).
Proof.
  intros Hk Va Vb.
  destruct (multipoint_histogram_valid Hk Va) as (ha & Ea & Ha & Ta & La).
  destruct (multipoint_histogram_valid Hk Vb) as (hb & Eb & Hb & Tb & Lb).
  assert (Hlen : length ha = length hb) by lia.
  exists ha, hb, (JS (probs ha) (probs hb)).
  repeat (split; [assumption|]). now apply jsd_JS.
Qed.

Lemma image_distance_defined_witness :
  ((1 <= 2 <= 7)%nat /\ valid_image 2 sample_image /\
   valid_image 2 sample_image) /\
  exists (ha hb : list Z) (d : R),
    multipoint_histogram sample_image 2 = Ok ha /\
    multipoint_histogram sample_image 2 = Ok hb /\
    length ha = length hb /\ 0 < total ha /\ 0 < total hb /\
    jsd ha hb = Ok (Fin d).
Proof.
  split; [repeat split; try lia; apply sample_image_valid|].
  apply (@image_distance_defined 2 sample_image sample_image);
    [lia | apply sample_image_valid | apply sample_image_valid].
Defined.

(** ** The histogram of a blank image *)

Lemma zeros_rect (h w : nat) : rect h w (zeros h w).
Proof.
  unfold zeros. split; [apply repeat_length|].
  apply Forall_forall. intros r Hr. apply repeat_spec in Hr. subst r.
  apply repeat_length.
Qed.

Lemma zeros_blank (h w : nat) : blank (zeros h w).
Proof.
  apply Forall_forall. intros r Hr. apply repeat_spec in Hr. subst r.
  apply Forall_forall. intros v Hv. now apply repeat_spec in Hv.
Qed.

Lemma blank_binary (img : image) : blank img -> binary img.
Proof.
  intros Hb. eapply Forall_impl; [|exact Hb]. intros r Hr.
  eapply Forall_impl; [|exact Hr]. intros v ->. now left.
Qed.

Lemma window_blank (img : image) (k i j : nat) :
  blank img -> blank (window img k i j).
Proof.
  intros Hb. unfold window, blank.
  apply Forall_map, Forall_firstn, Forall_skipn.
  eapply Forall_impl; [|exact Hb]. cbn. intros r Hr.
  now apply Forall_firstn, Forall_skipn.
Qed.

Lemma concat_blank (P : image) :
  blank P -> concat P = repeat 0 (length (concat P)).
Proof.
  intros HP. apply Forall_eq_repeat.
  induction HP as [|r P Hr HP IH]; cbn [concat].
  - constructor.
  - apply Forall_app. split; [|assumption].
    eapply Forall_impl; [|exact Hr]. intros v ->. reflexivity.
Qed.

Lemma encode_blank (P : image) : blank P -> encode P = 0.
Proof.
  intros HP. unfold encode. rewrite (concat_blank HP).
  rewrite bin2dec_wsum, wsum_zeros. reflexivity.
Qed.

Lemma windows_blank (img : image) (k : nat) :
  blank img -> Forall (fun v => v = 0) (map encode (windows img k)).
Proof.
  intros Hb. apply Forall_map. unfold windows.
  apply Forall_flat_map, Forall_forall. intros i _.
  apply Forall_map, Forall_forall. intros j _.
  now apply encode_blank, window_blank.
Qed.

Lemma count_all_zero (x : list Z) (v : Z) :
  Forall (fun a => a = 0) x ->
  count x v = if Z.eq_dec v 0 then Z.of_nat (length x) else 0.
Proof.
  induction 1 as [|a x -> Hx IH].
  - cbn. now destruct (Z.eq_dec v 0).
  - rewrite count_cons, IH. unfold indicator. cbn [length].
    destruct (Z.eq_dec 0 v), (Z.eq_dec v 0); lia.
Qed.

Lemma map_constant {A B : Type} (f : A -> B) (c : B) (l : list A) :
  (forall a, In a l -> f a = c) -> map f l = repeat c (length l).
Proof.
  induction l as [|a l IH]; intros Hf; cbn [map length repeat].
  - reflexivity.
  - rewrite Hf by now left. f_equal. apply IH. intros b Hb. apply Hf.
    now right.
Qed.

(** X9.  An all-zero [h] x [w] image puts all its [(h-k+1) * (w-k+1)]
    windows in bin 0 and leaves the other [2^(k*k) - 1] bins at 0. *)
Theorem multipoint_histogram_zeros (h w k : nat) :
  (1 <= k <= 7)%nat -> (k <= h)%nat -> (k <= w)%nat ->
  multipoint_histogram (zeros h w) k
  = Ok (Z.of_nat ((h - k + 1) * (w - k + 1))
          :: repeat 0 (Z.to_nat (2 ^ Z.of_nat (k * k)) - 1)).
Proof.
  intros Hk Hh Hw.
  pose proof (zeros_rect h w) as Hrect.
  pose proof (zeros_blank h w) as Hblank.
  rewrite (@multipoint_histogram_eq h w k (zeros h w));
    try assumption; try lia; [|now apply blank_binary].
  f_equal.
  assert (0 < 2 ^ Z.of_nat (k * k)) by (apply Z.pow_pos_nonneg; lia).
  destruct (Z.to_nat (2 ^ Z.of_nat (k * k))) as [|n] eqn:En; [lia|].
  cbn [seq map]. replace (S n - 1)%nat with n by lia.
  pose proof (windows_blank k Hblank) as Hz. f_equal.
  - rewrite (count_all_zero _ Hz). cbn.
    rewrite length_map, windows_length.
    rewrite (rect_width Hrect) by lia.
    replace (height (zeros h w)) with h by (symmetry; apply Hrect).
    reflexivity.
  - rewrite <- (length_seq n 1) at 2. apply map_constant.
    intros i Hi. apply in_seq in Hi. rewrite (count_all_zero _ Hz).
    destruct (Z.eq_dec (Z.of_nat i) 0); [lia | reflexivity].
Qed.

Lemma multipoint_histogram_zeros_witness :
  ((1 <= 2 <= 7)%nat /\ (2 <= 4)%nat /\ (2 <= 4)%nat) /\
  multipoint_histogram (zeros 4 4) 2
  = Ok (Z.of_nat ((4 - 2 + 1) * (4 - 2 + 1))
          :: repeat 0 (Z.to_nat (2 ^ Z.of_nat (2 * 2)) - 1)).
Proof.
  split; [lia|]. apply (@multipoint_histogram_zeros 4 4 2); lia.
Defined.

(** * Further properties of the encoder *)

Lemma shl_1_large (s : Z) : 64 <= s -> Int64.shl 1 s = 0.
Proof.
  intros Hs. unfold Int64.shl.
  destruct (Z.ltb_spec s 64); [lia|]. now rewrite andb_false_r.
Qed.

Lemma bin2dec_zeros (n : nat) : bin2dec (repeat 0 n) = 0.
Proof. rewrite bin2dec_wsum, wsum_zeros. reflexivity. Qed.

Lemma bin2dec_top_bit (m : nat) :
  (65 <= m)%nat -> bin2dec (1 :: repeat 0 (m - 1)) = 0.
Proof.
  intros Hm. rewrite bin2dec_wsum, wsum_cons, wsum_zeros, repeat_length.
  rewrite shl_1_large by lia. reflexivity.
Qed.

(** A row of 64 bits is read as a two's complement number. *)
Lemma bin2dec_64 (a : Z) (x : list Z) :
  is_bit a -> bits x -> length x = 63%nat ->
  bin2dec (a :: x) = be_value x - a * 2 ^ 63.
Proof.
  intros Ha Hx Hlen.
  rewrite bin2dec_wsum, wsum_cons, Hlen, wsum_be_value by lia.
  change (Z.of_nat 63) with 63. rewrite shl_1_63.
  pose proof (be_value_bound Hx) as Hv. rewrite Hlen in Hv.
  change (Z.of_nat 63) with 63 in Hv.
  rewrite wrap_small; [ring|].
  destruct Ha; subst; pow_consts; lia.
Qed.

(** X10.  [bin2dec] tells all rows of [m] bits apart exactly when
    [m <= 64]: up to 63 bits it is the binary numeral, at 64 bits the
    two's complement number, and from 65 bits on the first bit has
    weight 0. *)
Theorem bin2dec_injective_iff (m : nat) :
  (forall x y : list Z,
      length x = m -> length y = m -> bits x -> bits y ->
      bin2dec x = bin2dec y -> x = y)
  <-> (m <= 64)%nat.
Proof.
  split.
  - intros Hinj. destruct (Nat.le_gt_cases m 64) as [Hle|Hgt]; [assumption|].
    exfalso.
    assert (E : 1 :: repeat 0 (m - 1) = repeat 0 m).
    { apply Hinj.
      - cbn [length]. rewrite repeat_length. lia.
      - apply repeat_length.
      - constructor; [now right | apply bits_repeat_0].
      - apply bits_repeat_0.
      - rewrite bin2dec_top_bit, bin2dec_zeros by lia. reflexivity. }
    destruct m as [|m]; [lia|]. cbn [repeat] in E. discriminate.
  - intros Hm x y Hx Hy Bx By E.
    destruct (Nat.le_gt_cases m 63) as [Hle|Hgt].
    + rewrite !bin2dec_be_value in E by (assumption || lia).
      apply be_value_inj; congruence.
    + assert (Hm64 : m = 64%nat) by lia. rewrite Hm64 in Hx, Hy.
      destruct x as [|a x]; [discriminate|].
      destruct y as [|b y]; [discriminate|].
      cbn [length] in Hx, Hy.
      inversion Bx as [|a' x' Ha Bx']; subst.
      inversion By as [|b' y' Hb By']; subst.
      rewrite !bin2dec_64 in E by (assumption || lia).
      pose proof (be_value_bound Bx') as Vx.
      pose proof (be_value_bound By') as Vy.
      replace (Z.of_nat (length x)) with 63 in Vx by lia.
      replace (Z.of_nat (length y)) with 63 in Vy by lia.
      assert (a = b) by (destruct Ha, Hb; subst; pow_consts; lia).
      subst b. f_equal. apply be_value_inj; try assumption; lia.
Qed.

(** * The dissimilarity matrix *)

Lemma mapM_Forall2 {A B : Type} (f : A -> result B) (l : list A) :
  (forall a, In a l -> exists b, f a = Ok b) ->
  exists r, mapM f l = Ok r /\ Forall2 (fun a b => f a = Ok b) l r.
Proof.
  induction l as [|a l IH]; intros Hf; cbn [mapM].
  - exists []. split; [reflexivity | constructor].
  - destruct (Hf a (or_introl eq_refl)) as [b Eb].
    destruct IH as (r & Er & Hr); [intros x Hx; apply Hf; now right|].
    exists (b :: r). rewrite Eb. cbn [bind]. rewrite Er. cbn [bind].
    split; [reflexivity | now constructor].
Qed.

Lemma pairs_In {A : Type} (l : list A) (a b : A) :
  In (a, b) (pairs l) -> In a l /\ In b l.
Proof.
  induction l as [|x l IH]; cbn [pairs]; [contradiction|].
  intros Hin. apply in_app_or in Hin. destruct Hin as [Hin|Hin].
  - apply in_map_iff in Hin. destruct Hin as (y & E & Hy).
    injection E as <- <-. split; [now left | now right].
  - destruct (IH Hin). split; now right.
Qed.

Lemma pairs_length {A : Type} (l : list A) :
  (2 * length (pairs l) = length l * (length l - 1))%nat.
Proof.
  induction l as [|x l IH]; cbn [pairs length]; [reflexivity|].
  rewrite length_app, length_map. nia.
Qed.

Lemma same_length_forallb (L : nat) (ps : list (list Z)) (x0 : list Z) :
  length x0 = L -> Forall (fun p => length p = L) ps ->
  forallb (fun x => (length x =? length x0)%nat) ps = true.
Proof.
  intros H0 Hps. apply forallb_forall. intros p Hp.
  apply Nat.eqb_eq. rewrite H0.
  exact (proj1 (Forall_forall _ _) Hps p Hp).
Qed.

(** On arrays of one length [pdist] returns the divergence of every
    pair. *)
Lemma pdist_jsd_ok (L : nat) (ps : list (list Z)) :
  ps <> [] -> Forall (fun p => length p = L) ps ->
  exists v,
    pdist ps jsd = Ok v /\
    Forall2 (fun ab d => jsd (fst ab) (snd ab) = Ok d) (pairs ps) v.
Proof.
  intros Hne Hps. unfold pdist.
  destruct ps as [|x0 ps']; [contradiction|].
  rewrite (same_length_forallb (L := L)); [| now inversion Hps | assumption].
  apply mapM_Forall2. intros [a b] Hab. cbn [fst snd].
  apply pairs_In in Hab. destruct Hab as [Ha Hb].
  apply jsd_returns.
  rewrite (proj1 (Forall_forall _ _) Hps a Ha).
  now rewrite (proj1 (Forall_forall _ _) Hps b Hb).
Qed.

Lemma Forall2_map_pair {A B : Type} (R : A * A -> B -> Prop) (a : A)
      (l : list A) (v : list B) :
  Forall2 R (map (pair a) l) v -> Forall2 (fun y d => R (a, y) d) l v.
Proof.
  revert v. induction l as [|y l IH]; intros v H; inversion H; subst.
  - constructor.
  - constructor; [assumption | now apply IH].
Qed.

Lemma upper_rows_spec (ps : list (list Z)) (v : list float) :
  Forall2 (fun ab d => jsd (fst ab) (snd ab) = Ok d) (pairs ps) v ->
  upper_of ps (upper_rows (length ps) v).
Proof.
  revert v. induction ps as [|a l IH]; intros v Hv; cbn [length upper_rows].
  - constructor.
  - cbn [pairs] in Hv. apply Forall2_app_inv_l in Hv.
    destruct Hv as (v1 & v2 & H1 & H2 & ->).
    assert (Hlen : length v1 = length l).
    { apply Forall2_length in H1. now rewrite length_map in H1. }
    rewrite firstn_app, skipn_app, <- Hlen, Nat.sub_diag.
    rewrite firstn_all, skipn_all, firstn_O, skipn_O, app_nil_r.
    cbn [app]. rewrite Hlen. constructor.
    + apply Forall2_map_pair in H1. exact H1.
    + now apply IH.
Qed.

Lemma Forall2_nth {A B : Type} (R : A -> B -> Prop) (l : list A)
      (v : list B) (k : nat) (da : A) (db : B) :
  Forall2 R l v -> (k < length l)%nat -> R (nth k l da) (nth k v db).
Proof.
  intros H. revert k. induction H as [|a b l v Hab H IH]; intros k Hk.
  - cbn in Hk. lia.
  - destruct k as [|k]; cbn [nth]; [assumption|].
    apply IH. cbn [length] in Hk. lia.
Qed.

Lemma upper_of_nth (ps : list (list Z)) (U : list (list float)) (i j : nat) :
  upper_of ps U -> (i < j)%nat -> (j < length ps)%nat ->
  jsd (nth i ps []) (nth j ps [])
  = Ok (nth (j - i - 1) (nth i U []) (Fin 0)).
Proof.
  intros HU. revert i j.
  induction HU as [|a l row U Hrow HU IH]; intros i j Hij Hj.
  - cbn in Hj. lia.
  - cbn [length] in Hj. destruct j as [|j]; [lia|].
    destruct i as [|i]; cbn [nth].
    + replace (S j - 0 - 1)%nat with j by lia.
      apply (Forall2_nth (R := fun y d => jsd a y = Ok d)); [assumption|lia].
    + replace (S j - S i - 1)%nat with (j - i - 1)%nat by lia.
      apply IH; lia.
Qed.

Lemma square_nth (n : nat) (v : list float) (i j : nat) :
  (i < n)%nat -> (j < n)%nat ->
  nth j (nth i (square n v) []) (Fin 0)
  = square_entry (upper_rows n v) i j.
Proof.
  intros Hi Hj. unfold square.
  set (row := fun i => map (fun j => square_entry (upper_rows n v) i j)
                           (seq 0 n)).
  rewrite (nth_indep _ [] (row O)) by now rewrite length_map, length_seq.
  rewrite (map_nth row), seq_nth by assumption. unfold row.
  rewrite (nth_indep _ (Fin 0) (square_entry (upper_rows n v) (0 + i) O))
    by now rewrite length_map, length_seq.
  rewrite (map_nth (fun j => square_entry (upper_rows n v) (0 + i) j)).
  now rewrite seq_nth by assumption.
Qed.

Lemma square_shape (n : nat) (v : list float) :
  length (square n v) = n /\
  Forall (fun row => length row = n) (square n v).
Proof.
  unfold square. split; [now rewrite length_map, length_seq|].
  apply Forall_map, Forall_forall. intros i _.
  now rewrite length_map, length_seq.
Qed.

Lemma square_entry_sym (U : list (list float)) (i j : nat) :
  square_entry U i j = square_entry U j i.
Proof.
  unfold square_entry.
  destruct (Nat.eqb_spec i j), (Nat.eqb_spec j i); try lia; try reflexivity.
  destruct (Nat.ltb_spec i j), (Nat.ltb_spec j i); try lia; reflexivity.
Qed.

(** A condensed vector of [n (n-1) / 2] entries unfolds to [n] x [n]. *)
Lemma squareform_ok (n : nat) (v : list float) :
  (1 <= n)%nat -> (2 * length v = n * (n - 1))%nat ->
  squareform v = Ok (square n v).
Proof.
  intros Hn Hlen. unfold squareform.
  destruct (Z.eqb_spec (Z.of_nat (length v)) 0) as [E0|NE].
  - assert (n = 1%nat) by nia. subst n. reflexivity.
  - assert (Hn2 : (2 <= n)%nat) by nia.
    assert (Hs : Z.sqrt_up (2 * Z.of_nat (length v)) = Z.of_nat n).
    { apply Z.sqrt_up_unique; [lia|]. nia. }
    rewrite Hs, Nat2Z.id.
    destruct (Z.eqb_spec (Z.of_nat n * (Z.of_nat n - 1))
                (2 * Z.of_nat (length v))); [reflexivity | nia].
Qed.

(** The shape and the entries of the matrix [jsdm] builds. *)
Lemma jsdm_spec (L : nat) (ps : list (list Z)) :
  ps <> [] -> Forall (fun p => length p = L) ps ->
  exists M,
    jsdm ps = Ok M /\
    length M = length ps /\
    Forall (fun row => length row = length ps) M /\
    forall i j, (i < length ps)%nat -> (j < length ps)%nat ->
      nth i (nth i M []) (Fin 0) = Fin 0 /\
      nth j (nth i M []) (Fin 0) = nth i (nth j M []) (Fin 0) /\
      ((i < j)%nat ->
       jsd (nth i ps []) (nth j ps []) = Ok (nth j (nth i M []) (Fin 0))).
Proof.
  intros Hne Hps.
  destruct (pdist_jsd_ok Hne Hps) as (v & Ev & Hv).
  assert (Hn : (1 <= length ps)%nat) by (destruct ps; [contradiction | cbn; lia]).
  assert (Hlen : (2 * length v = length ps * (length ps - 1))%nat).
  { rewrite <- (Forall2_length Hv). apply pairs_length. }
  exists (square (length ps) v). unfold jsdm. rewrite Ev. cbn [bind].
  split; [now apply squareform_ok|].
  destruct (square_shape (length ps) v) as [S1 S2].
  split; [assumption|]. split; [assumption|].
  intros i j Hi Hj. rewrite !square_nth by assumption.
  split; [|split].
  - unfold square_entry. now rewrite Nat.eqb_refl.
  - apply square_entry_sym.
  - intros Hij. unfold square_entry.
    destruct (Nat.eqb_spec i j); [lia|].
    destruct (Nat.ltb_spec i j); [|lia].
    apply upper_of_nth; [now apply upper_rows_spec | assumption | assumption].
Qed.

(** X11.  For a non-empty list of arrays of one length, [jsdm] returns a
    square matrix with one row per array, a zero diagonal and equal
    entries at [(i, j)] and [(j, i)]; the entry of a pair [i < j] is the
    divergence [pdist] computed for it, once. *)
Theorem jsdm_matrix (L : nat) (ps : list (list Z)) :
  ps <> [] -> Forall (fun p => length p = L) ps ->
  exists M,
    jsdm ps = Ok M /\
    length M = length ps /\
    Forall (fun row => length row = length ps) M /\
    forall i j, (i < length ps)%nat -> (j < length ps)%nat ->
      nth i (nth i M []) (Fin 0) = Fin 0 /\
      nth j (nth i M []) (Fin 0) = nth i (nth j M []) (Fin 0) /\
      ((i < j)%nat ->
       jsd (nth i ps []) (nth j ps []) = Ok (nth j (nth i M []) (Fin 0))).
Proof. apply jsdm_spec. Qed.

Lemma jsdm_matrix_witness :
  ([[1; 3]; [2; 2]; [0; 4]] <> [] /\
   Forall (fun p => length p = 2%nat) [[1; 3]; [2; 2]; [0; 4]]) /\
  exists M,
    jsdm [[1; 3]; [2; 2]; [0; 4]] = Ok M /\
    length M = length [[1; 3]; [2; 2]; [0; 4]] /\
    Forall (fun row => length row = length [[1; 3]; [2; 2]; [0; 4]]) M /\
    forall i j, (i < length [[1; 3]; [2; 2]; [0; 4]])%nat ->
                (j < length [[1; 3]; [2; 2]; [0; 4]])%nat ->
      nth i (nth i M []) (Fin 0) = Fin 0 /\
      nth j (nth i M []) (Fin 0) = nth i (nth j M []) (Fin 0) /\
      ((i < j)%nat ->
       jsd (nth i [[1; 3]; [2; 2]; [0; 4]] [])
           (nth j [[1; 3]; [2; 2]; [0; 4]] [])
       = Ok (nth j (nth i M []) (Fin 0))).
Proof.
  split.
  - split; [discriminate | repeat constructor].
  - apply (@jsdm_matrix 2 [[1; 3]; [2; 2]; [0; 4]]);
      [discriminate | repeat constructor].
Defined.

(** X12.  [jsdm] has no matrix for an empty list, nor for arrays of
    different lengths: [pdist] raises [ValueError], its input not being a
    2-D array. *)
Theorem jsdm_not_an_array (ps : list (list Z)) :
  ps = [] \/
  (exists p, In p ps /\ length p <> length (hd [] ps)) ->
  jsdm ps = Raise ValueError.
Proof.
  intros [-> | (p & Hp & Hlen)]; [reflexivity|].
  unfold jsdm, pdist. destruct ps as [|x0 ps']; [contradiction|].
  cbn [hd] in Hlen.
  destruct (forallb (fun x => (length x =? length x0)%nat) (x0 :: ps'))
    eqn:E; [|reflexivity].
  exfalso. rewrite forallb_forall in E. specialize (E p Hp).
  apply Nat.eqb_eq in E. contradiction.
Qed.

Lemma jsdm_not_an_array_witness :
  ([[1; 3]; [1; 2; 1]] = [] \/
   (exists p, In p [[1; 3]; [1; 2; 1]] /\
              length p <> length (hd [] [[1; 3]; [1; 2; 1]]))) /\
  jsdm [[1; 3]; [1; 2; 1]] = Raise ValueError.
Proof.
  assert (H : exists p, In p [[1; 3]; [1; 2; 1]] /\
                        length p <> length (hd [] [[1; 3]; [1; 2; 1]])).
  { exists [1; 2; 1]. split; [right; left; reflexivity | cbn; lia]. }
  split; [now right|].
  apply (@jsdm_not_an_array [[1; 3]; [1; 2; 1]]). now right.
Defined.

(** * Further properties of the scores *)

Lemma mapM_Forall {A B : Type} (f : A -> result B) (Q : B -> Prop)
      (l : list A) :
  (forall a, In a l -> exists b, f a = Ok b /\ Q b) ->
  exists r, mapM f l = Ok r /\ Forall Q r /\ length r = length l.
Proof.
  induction l as [|a l IH]; intros Hf; cbn [mapM].
  - exists []. repeat split. constructor.
  - destruct (Hf a (or_introl eq_refl)) as (b & Eb & Qb).
    destruct IH as (r & Er & Hr & Hlen); [intros x Hx; apply Hf; now right|].
    exists (b :: r). rewrite Eb. cbn [bind]. rewrite Er. cbn [bind length].
    split; [reflexivity|]. split; [now constructor | now rewrite Hlen].
Qed.

Lemma mapM_raises {A B : Type} (f : A -> result B) (l : list A) (a : A)
      (e : exn) :
  In a l -> f a = Raise e -> exists e', mapM f l = Raise e'.
Proof.
  induction l as [|x l IH]; intros Hin Ea; [contradiction|]. cbn [mapM].
  destruct (f x) as [b|e0] eqn:Ex; cbn [bind]; [|now exists e0].
  destruct Hin as [->|Hin]; [congruence|].
  destruct (IH Hin Ea) as [e' E']. rewrite E'. now exists e'.
Qed.

Lemma multipoint_histogram_good (k : nat) (img : image) :
  (1 <= k <= 7)%nat -> valid_image k img ->
  exists hist, multipoint_histogram img k = Ok hist /\ good_hist k hist.
Proof.
  intros Hk Hv.
  destruct (multipoint_histogram_valid Hk Hv) as (hist & E & H1 & H2 & H3).
  exists hist. split; [assumption | exact (conj H1 (conj H2 H3))].
Qed.

Lemma jsd_finite (k : nat) (p q : list Z) :
  good_hist k p -> good_hist k q -> exists d, jsd p q = Ok d /\ finite d.
Proof.
  intros (Hp & Tp & Lp) (Hq & Tq & Lq).
  assert (Hlen : length p = length q) by lia.
  exists (Fin (JS (probs p) (probs q))).
  split; [now apply jsd_JS | eexists; reflexivity].
Qed.

Lemma finite_reals (ds : list float) :
  Forall finite ds -> exists xs, ds = map Fin xs.
Proof.
  induction 1 as [|d ds (x & ->) Hds (xs & ->)].
  - now exists [].
  - now exists (x :: xs).
Qed.

(** The mean of finitely many finite values is finite. *)
Lemma mean_finite (ds : list float) :
  ds <> [] -> Forall finite ds -> finite (F.mean ds).
Proof.
  intros Hne Hds. destruct (finite_reals Hds) as (xs & ->).
  assert (Hn : (0 < INR (length xs))%R).
  { apply lt_0_INR. destruct xs; [now elim Hne | cbn; lia]. }
  unfold F.mean, F.of_nat, F.div. rewrite F_sum_Fin, length_map.
  destruct (Req_dec_T (INR (length xs)) 0) as [E|_]; [lra|].
  eexists. reflexivity.
Qed.

Lemma good_hist_length (k : nat) (p q : list Z) :
  good_hist k p -> good_hist k q -> length p = length q.
Proof. intros (_ & _ & Lp) (_ & _ & Lq). lia. Qed.

Lemma pdist_finite (k : nat) (hists : list (list Z)) :
  hists <> [] -> Forall (good_hist k) hists ->
  exists v,
    pdist hists jsd = Ok v /\ Forall finite v /\
    length v = length (pairs hists).
Proof.
  intros Hne Hg. unfold pdist.
  destruct hists as [|x0 hs]; [contradiction|].
  assert (Hall : forall h, In h (x0 :: hs) -> good_hist k h)
    by (apply Forall_forall; exact Hg).
  assert (E : forallb (fun x => (length x =? length x0)%nat) (x0 :: hs) = true).
  { apply forallb_forall. intros h Hh. apply Nat.eqb_eq.
    apply (@good_hist_length k); apply Hall; [assumption | now left]. }
  rewrite E. apply mapM_Forall. intros [a b] Hab. cbn [fst snd].
  apply pairs_In in Hab. destruct Hab as [Ha Hb].
  apply (@jsd_finite k); now apply Hall.
Qed.

(** X13.  With at least two candidates, all of them and the reference
    valid images for a patch size [1 <= k <= 7], [anodi] raises nothing
    and returns two finite scores: neither is [nan], as the diversity of
    a single candidate is. *)
Theorem anodi_scores_finite (k : nat) (img0 : image) (imgs : list image) :
  (1 <= k <= 7)%nat -> valid_image k img0 ->
  Forall (valid_image k) imgs -> (2 <= length imgs)%nat ->
  exists inconsistency diversity : R,
    anodi img0 imgs k = Ok (Fin inconsistency, Fin diversity).
Proof.
  intros Hk V0 Vs Hn.
  destruct (multipoint_histogram_good Hk V0) as (hist0 & E0 & G0).
  destruct (@mapM_Forall _ _ (fun img => multipoint_histogram img k)
              (good_hist k) imgs) as (hists & Eh & Gh & Lh).
  { intros img Hin. apply multipoint_histogram_good; [assumption|].
    exact (proj1 (Forall_forall _ _) Vs img Hin). }
  destruct (@mapM_Forall _ _ (fun h => jsd hist0 h) finite hists)
    as (ds & Ed & Sd & Ld).
  { intros h Hin. apply (@jsd_finite k); [assumption|].
    exact (proj1 (Forall_forall _ _) Gh h Hin). }
  assert (Hne : hists <> []) by (destruct hists; [cbn in Lh; lia | discriminate]).
  destruct (pdist_finite Hne Gh) as (ds' & Ep & Sp & Lp).
  assert (Hd : ds <> []) by (destruct ds; [cbn in Ld; lia | discriminate]).
  assert (Hd' : ds' <> []).
  { pose proof (pairs_length hists) as HP.
    destruct ds'; [cbn in Lp; nia | discriminate]. }
  destruct (mean_finite Hd Sd) as (inc & Einc).
  destruct (mean_finite Hd' Sp) as (div & Ediv).
  exists inc, div. unfold anodi.
  rewrite E0. cbn [bind]. rewrite Eh. cbn [bind]. rewrite Ed. cbn [bind].
  rewrite Ep. cbn [bind]. now rewrite Einc, Ediv.
Qed.

Lemma anodi_scores_finite_witness :
  ((1 <= 2 <= 7)%nat /\ valid_image 2 sample_image /\
   Forall (valid_image 2) [sample_image; zeros 3 3] /\
   (2 <= length [sample_image; zeros 3 3])%nat) /\
  exists inconsistency diversity : R,
    anodi sample_image [sample_image; zeros 3 3] 2
    = Ok (Fin inconsistency, Fin diversity).
Proof.
  assert (VZ : valid_image 2 (zeros 3 3)).
  { exists 3%nat, 3%nat. split; [apply zeros_rect|].
    split; [apply blank_binary, zeros_blank|].
    split; [lia|]. split; [lia|]. cbn. pow_consts. lia. }
  assert (Vs : Forall (valid_image 2) [sample_image; zeros 3 3])
    by (repeat constructor; [apply sample_image_valid | exact VZ]).
  split.
  - split; [lia|]. split; [apply sample_image_valid|].
    split; [exact Vs | cbn; lia].
  - apply (@anodi_scores_finite 2 sample_image [sample_image; zeros 3 3]);
      [lia | apply sample_image_valid | exact Vs | cbn; lia].
Defined.

Section Identical.

Local Open Scope R_scope.

Lemma mean_zero (n : nat) : F.mean (repeat (Fin 0) (S n)) = Fin 0.
Proof.
  unfold F.mean, F.of_nat, F.div.
  rewrite <- (map_repeat_const Fin 0 (b := Fin 0) (S n) eq_refl).
  rewrite F_sum_Fin, length_map, repeat_length.
  assert (Hn : 0 < INR (S n)) by (apply lt_0_INR; lia).
  destruct (Req_dec_T (INR (S n)) 0) as [E|_]; [lra|].
  f_equal.
  assert (Hs : Rsum (repeat 0 (S n)) = 0).
  { clear. induction (S n) as [|m IH]; [reflexivity|].
    cbn [repeat]. rewrite Rsum_cons, IH. ring. }
  rewrite Hs. field. lra.
Qed.

End Identical.

(** X14.  Identical images throughout: with a valid image as the
    reference and as both candidates, both scores are 0. *)
Theorem anodi_identical (k : nat) (img : image) :
  (1 <= k <= 7)%nat -> valid_image k img ->
  anodi img [img; img] k = Ok (Fin 0, Fin 0).
Proof.
  intros Hk Hv.
  destruct (multipoint_histogram_good Hk Hv) as (h & E & (Hh & Th & _)).
  assert (J : jsd h h = Ok (Fin 0))
    by (rewrite (jsd_JS Hh Hh eq_refl Th Th); now rewrite JS_self).
  unfold anodi. rewrite E. cbn [bind mapM]. rewrite E. cbn [bind mapM].
  rewrite J. cbn [bind mapM].
  cbn [pdist forallb pairs map app fst snd mapM]. rewrite Nat.eqb_refl.
  cbn [andb]. rewrite J. cbn [bind].
  change [Fin 0; Fin 0] with (repeat (Fin 0) 2).
  change [Fin 0] with (repeat (Fin 0) 1).
  now rewrite !mean_zero.
Qed.

Lemma anodi_identical_witness :
  ((1 <= 2 <= 7)%nat /\ valid_image 2 sample_image) /\
  anodi sample_image [sample_image; sample_image] 2 = Ok (Fin 0, Fin 0).
Proof.
  split; [split; [lia | apply sample_image_valid]|].
  apply (@anodi_identical 2 sample_image); [lia | apply sample_image_valid].
Defined.

Lemma multipoint_histogram_too_small (k : nat) (img : image) :
  too_small k img -> multipoint_histogram img k = Raise ValueError.
Proof.
  intros Hk. unfold multipoint_histogram, extract_patches_2d.
  destruct (Nat.ltb_spec (height img) k); [reflexivity|].
  destruct (Nat.ltb_spec (width img) k); [reflexivity|].
  destruct Hk; lia.
Qed.

(** X15.  [anodi] returns no score when an image is smaller than the
    patch: a small reference raises [ValueError] at once, and a small
    candidate makes the histogram comprehension raise. *)
Theorem anodi_image_too_small (k : nat) (img0 : image) (imgs : list image) :
  too_small k img0 \/ (exists img, In img imgs /\ too_small k img) ->
  exists e, anodi img0 imgs k = Raise e.
Proof.
  intros [H0 | (img & Hin & Himg)]; unfold anodi.
  - rewrite (multipoint_histogram_too_small H0). now exists ValueError.
  - destruct (multipoint_histogram img0 k) as [h0|e0]; cbn [bind];
      [|now exists e0].
    destruct (@mapM_raises _ _ (fun img => multipoint_histogram img k)
                imgs img ValueError Hin
                (multipoint_histogram_too_small Himg)) as [e' E'].
    rewrite E'. now exists e'.
Qed.

Lemma anodi_image_too_small_witness :
  (too_small 4 sample_image \/
   (exists img, In img [sample_image] /\ too_small 4 img)) /\
  exists e, anodi sample_image [sample_image] 4 = Raise e.
Proof.
  assert (T : too_small 4 sample_image) by (left; cbn; lia).
  split; [now left|].
  apply (@anodi_image_too_small 4 sample_image [sample_image]). now left.
Defined.

(** * The binarizer and the embedding *)

Lemma nth_map_map (g : Z -> Z) (img : image) (h w i j : nat) :
  rect h w img -> (i < h)%nat -> (j < w)%nat ->
  nth j (nth i (map (map g) img) []) 0 = g (nth j (nth i img []) 0).
Proof.
  intros [Hlen Hrows] Hi Hj.
  change (@nil Z) with (map g []) at 1. rewrite map_nth.
  assert (Hrow : length (nth i img []) = w).
  { apply (proj1 (Forall_forall _ _) Hrows). apply nth_In. lia. }
  rewrite (nth_indep _ 0 (g 0)) by (rewrite length_map; lia).
  apply map_nth.
Qed.

(** X16.  Whatever threshold the Otsu routine picks, [otsu] returns a
    binary image of the shape of its input, a pixel being 1 exactly where
    the intensity exceeds the threshold. *)
Theorem otsu_binary (threshold : image -> result Z) (h w : nat)
        (img : image) (t : Z) :
  threshold img = Ok t -> rect h w img ->
  exists b,
    otsu threshold img = Ok b /\ rect h w b /\ binary b /\
    forall i j, (i < h)%nat -> (j < w)%nat ->
      (nth j (nth i b []) 0 = 1 <-> t < nth j (nth i img []) 0).
Proof.
  intros Et Hrect. unfold otsu. rewrite Et. cbn [bind].
  eexists. split; [reflexivity|]. split; [|split].
  - destruct Hrect as [Hlen Hrows]. split; [now rewrite length_map|].
    apply Forall_map. eapply Forall_impl; [|exact Hrows].
    cbn. intros r Hr. now rewrite length_map.
  - apply Forall_map, Forall_forall. intros r _.
    apply Forall_map, Forall_forall. intros v _.
    destruct (t <? v); [now right | now left].
  - intros i j Hi Hj.
    rewrite (nth_map_map (fun v => if t <? v then 1 else 0) Hrect Hi Hj).
    destruct (Z.ltb_spec t (nth j (nth i img []) 0)); split; intros; lia.
Qed.

Lemma otsu_binary_witness :
  ((fun _ : image => Ok 100) [[12; 200]; [101; 100]] = Ok 100 /\
   rect 2 2 [[12; 200]; [101; 100]]) /\
  exists b,
    otsu (fun _ => Ok 100) [[12; 200]; [101; 100]] = Ok b /\
    rect 2 2 b /\ binary b /\
    forall i j, (i < 2)%nat -> (j < 2)%nat ->
      (nth j (nth i b []) 0 = 1
       <-> 100 < nth j (nth i [[12; 200]; [101; 100]] []) 0).
Proof.
  assert (R : rect 2 2 [[12; 200]; [101; 100]]) by solve_rect.
  split; [split; [reflexivity | exact R]|].
  apply (@otsu_binary (fun _ => Ok 100) 2 2 [[12; 200]; [101; 100]] 100);
    [reflexivity | exact R].
Defined.

(** X17.  Binarisation feeds the histogram builder: for an image of any
    integer intensities that the patch fits, and [1 <= k <= 7], the
    histogram of the binarised image is returned, with [2^(k*k)] bins
    holding [(h-k+1) * (w-k+1)] windows. *)
Theorem otsu_then_histogram (threshold : image -> result Z) (h w k : nat)
        (img : image) (t : Z) :
  threshold img = Ok t -> rect h w img ->
  (1 <= k <= 7)%nat -> (k <= h)%nat -> (k <= w)%nat ->
  exists b hist,
    otsu threshold img = Ok b /\
    multipoint_histogram b k = Ok hist /\
    Z.of_nat (length hist) = 2 ^ Z.of_nat (k * k) /\
    total hist = Z.of_nat ((h - k + 1) * (w - k + 1)).
Proof.
  intros Et Hrect Hk Hh Hw. unfold otsu. rewrite Et. cbn [bind].
  set (b := map (map (fun v => if t <? v then 1 else 0)) img).
  assert (Rb : rect h w b).
  { destruct Hrect as [Hlen Hrows]. split; [unfold b; now rewrite length_map|].
    apply Forall_map. eapply Forall_impl; [|exact Hrows].
    cbn. intros r Hr. now rewrite length_map. }
  assert (Bb : binary b).
  { apply Forall_map, Forall_forall. intros r _.
    apply Forall_map, Forall_forall. intros v _.
    destruct (t <? v); [now right | now left]. }
  destruct (@multipoint_histogram_ok h w k b)
    as (hist & E & Hlen & Htot & _); try assumption; try lia.
  exists b, hist. now repeat split.
Qed.

Lemma otsu_then_histogram_witness :
  ((fun _ : image => Ok 100) [[12; 200]; [101; 100]] = Ok 100 /\
   rect 2 2 [[12; 200]; [101; 100]] /\
   (1 <= 2 <= 7)%nat /\ (2 <= 2)%nat /\ (2 <= 2)%nat) /\
  exists b hist,
    otsu (fun _ => Ok 100) [[12; 200]; [101; 100]] = Ok b /\
    multipoint_histogram b 2 = Ok hist /\
    Z.of_nat (length hist) = 2 ^ Z.of_nat (2 * 2) /\
    total hist = Z.of_nat ((2 - 2 + 1) * (2 - 2 + 1)).
Proof.
  assert (R : rect 2 2 [[12; 200]; [101; 100]]) by solve_rect.
  split; [split; [reflexivity|]; split; [exact R | lia]|].
  apply (@otsu_then_histogram (fun _ => Ok 100) 2 2 2
           [[12; 200]; [101; 100]] 100);
    [reflexivity | exact R | lia | lia | lia].
Defined.

(** X18.  [mds] never reaches the scaling routine with an empty list of
    images or with an image smaller than the patch: it raises before. *)
Theorem mds_fails_early
        (fit : list (list float) -> result (list (float * float)))
        (k : nat) (imgs : list image) :
  imgs = [] \/ (exists img, In img imgs /\ too_small k img) ->
  exists e, mds fit imgs k = Raise e.
Proof.
  intros [-> | (img & Hin & Himg)]; unfold mds.
  - now exists ValueError.
  - destruct (@mapM_raises _ _ (fun img => multipoint_histogram img k)
                imgs img ValueError Hin
                (multipoint_histogram_too_small Himg)) as [e' E'].
    rewrite E'. now exists e'.
Qed.

Lemma mds_fails_early_witness :
  ([sample_image] = [] \/
   (exists img, In img [sample_image] /\ too_small 4 img)) /\
  exists e, mds (fun _ => Ok []) [sample_image] 4 = Raise e.
Proof.
  assert (T : exists img, In img [sample_image] /\ too_small 4 img).
  { exists sample_image. split; [now left | left; cbn; lia]. }
  split; [now right|].
  apply (@mds_fails_early (fun _ => Ok []) 4 [sample_image]). now right.
Defined.


